(** * aipl/table.py: the nested table model (Column, SubColumn, Row, LazyRow, Table)

    A shallow embedding of [src/aipl/table.py].  Python objects become an
    inductive universe of cell values; exceptions become the [Raise] branch of
    a result type; a [dict] becomes an association list in insertion order;
    methods that mutate [self] thread the table explicitly. *)

From Stdlib Require Import List String ZArith Bool Arith Lia.
Import ListNotations.
Open Scope string_scope.
Open Scope list_scope.
Set Warnings "-register-all".

(** ** Exceptions and results *)

Inductive exn : Type :=
| KeyError (k : string)
| IndexError
| AttributeError
| TypeError
| AssertionError
| OutOfFuel.  (* not a Python exception: the answer of a fuelled helper whose fuel ran out *)

Inductive result (A : Type) : Type :=
| Ok (a : A)
| Raise (e : exn).
Arguments Ok {A} a.
Arguments Raise {A} e.

Definition bind {A B : Type} (m : result A) (f : A -> result B) : result B :=
  match m with
  | Ok a => f a
  | Raise e => Raise e
  end.

Notation "x <- m ;; k" := (bind m (fun x => k))
  (at level 61, m at next level, right associativity).

Fixpoint mapM {A B : Type} (f : A -> result B) (l : list A) : result (list B) :=
  match l with
  | [] => Ok []
  | a :: l' => b <- f a ;; bs <- mapM f l' ;; Ok (b :: bs)
  end.

(** ** Data model *)

(** [Column.key]: one field identifier, or a list/tuple of them (a path). *)
Inductive colkey : Type :=
| KStr (k : string)
| KPath (ks : list string).

(** [Column(key, name)] and [SubColumn(key, origcol)], with the attributes
    the constructors store ([name], [key], [origcol]).  A name is a string;
    the key of a SubColumn is the dict key under which the nested row sits,
    a string as well. *)
Inductive column : Type :=
| Column (name : string) (key : colkey)
| SubColumn (name : string) (key : string) (origcol : column).

(** Cell values.  [VUnworking] is the module's [UNWORKING] sentinel;
    [VFloat] carries the bits of a float, which the module never computes
    with; [VObj] is any other object (no mapping interface, no [_asdict]).
    A [dict] (class [Row]) is an association list with string keys. *)
Inductive value : Type :=
| VNone
| VUnworking
| VBool (b : bool)
| VInt (z : Z)
| VFloat (bits : Z)
| VStr (s : string)
| VList (l : list value)
| VTuple (l : list value)
| VDict (d : list (string * value))
| VTable (t : table)
| VLazyRow (lr : lazyrow)
| VObj (id : nat)
with table : Type :=
| mkTable (rows : list (list (string * value))) (columns : list column)
          (parent : option table) (scalar : value)
with lazyrow : Type :=
| mkLazyRow (_table : table) (_row : list (string * value)).

(** [class Row(dict)] *)
Abbreviation Row := (list (string * value)).

Definition rows (t : table) : list Row := let (r, _, _, _) := t in r.
Definition columns (t : table) : list column := let (_, c, _, _) := t in c.
Definition parent (t : table) : option table := let (_, _, p, _) := t in p.
Definition scalar (t : table) : value := let (_, _, _, s) := t in s.
Definition _table (lr : lazyrow) : table := let (t, _) := lr in t.
Definition _row (lr : lazyrow) : Row := let (_, r) := lr in r.

Definition UNWORKING : value := VUnworking.
Definition CURRENT_COLNAME : string := "_".

(** ** Sizes (the measures the recursive methods go down on) *)

Fixpoint vsize (v : value) : nat :=
  match v with
  | VList l | VTuple l => S (list_sum (map vsize l))
  | VDict d => S (list_sum (map (fun p => S (vsize (snd p))) d))
  | VTable t => S (tsize t)
  | VLazyRow lr => S (lrsize lr)
  | _ => 1
  end
with tsize (t : table) : nat :=
  match t with
  | mkTable rs _ p s =>
      S (list_sum (map (fun r => S (list_sum (map (fun p => S (vsize (snd p))) r))) rs)
         + match p with Some t' => tsize t' | None => 0 end
         + vsize s)
  end
with lrsize (lr : lazyrow) : nat :=
  match lr with
  | mkLazyRow t r => S (tsize t + list_sum (map (fun p => S (vsize (snd p))) r))
  end.

Definition dsize (r : Row) : nat := list_sum (map (fun p => S (vsize (snd p))) r).

(** ** dict operations (insertion-ordered, string keys) *)

Fixpoint dict_lookup (d : Row) (k : string) : option value :=
  match d with
  | [] => None
  | (k', v) :: d' => if String.eqb k' k then Some v else dict_lookup d' k
  end.

(** [d.get(k)] and [d.get(k, None)] *)
Definition dict_get (d : Row) (k : string) : value :=
  match dict_lookup d k with
  | Some v => v
  | None => VNone
  end.

(** [d.keys()] *)
Definition dict_keys (d : Row) : list string := map fst d.

(** [k in d] *)
Definition dict_mem (d : Row) (k : string) : bool :=
  existsb (String.eqb k) (dict_keys d).

(** [del d[k]] *)
Definition dict_del (d : Row) (k : string) : Row :=
  filter (fun p => negb (String.eqb (fst p) k)) d.

(** [d[k] = v]: an existing key keeps its place, a new key goes last *)
Fixpoint dict_set (d : Row) (k : string) (v : value) : Row :=
  match d with
  | [] => [(k, v)]
  | (k', v') :: d' =>
      if String.eqb k' k then (k', v) :: d' else (k', v') :: dict_set d' k v
  end.

(** [v is None] *)
Definition is_None (v : value) : bool :=
  match v with
  | VNone => true
  | _ => false
  end.

(** [v is UNWORKING]: the sentinel is one object, so identity is equality *)
Definition is_UNWORKING (v : value) : bool :=
  match v with
  | VUnworking => true
  | _ => false
  end.

(** [s.startswith(p)] *)
Definition startswith (s p : string) : bool := String.prefix p s.

(** ** Column *)

(** [c.name] *)
Definition name (c : column) : string :=
  match c with
  | Column n _ => n
  | SubColumn n _ _ => n
  end.

(** [Column(k)] for a field name [k]: [name or key] is [k] when [name = ''] *)
Definition Column_of_field (k : string) : column := Column k (KStr k).

(** [SubColumn(key, origcol)]: [super().__init__(key, origcol.name)] *)
Definition SubColumn_init (key : string) (origcol : column) : column :=
  SubColumn (if String.eqb (name origcol) "" then key else name origcol) key origcol.

(** [Column.hidden] *)
Definition hidden (c : column) : bool := startswith (name c) "_".

(** [Column.get_value] and [SubColumn.get_value], over the [__getitem__] of
    the LazyRows met on the way ([getitem]); [obj.get(k)] and [obj[k]] are
    written out per class of [obj]. *)
Section GetValue.
Variable getitem : string -> lazyrow -> result value.

(** [obj.get(k)]: [dict.get], or [Mapping.get] on a LazyRow, which turns
    the KeyError of [__getitem__] into None *)
Definition value_get (obj : value) (k : string) : result value :=
  match obj with
  | VDict d => Ok (dict_get d k)
  | VLazyRow lr =>
      match getitem k lr with
      | Raise (KeyError _) => Ok VNone
      | r => r
      end
  | _ => Raise AttributeError
  end.

(** [obj[k]] for a string [k] *)
Definition value_subscript (obj : value) (k : string) : result value :=
  match obj with
  | VDict d =>
      match dict_lookup d k with
      | Some v => Ok v
      | None => Raise (KeyError k)
      end
  | VLazyRow lr => getitem k lr
  | _ => Raise TypeError
  end.

(** the loop of [Column.get_value] over a path key *)
Fixpoint walk_path (obj : value) (ks : list string) : result value :=
  match ks with
  | [] => Ok obj
  | k :: ks' =>
      o <- value_get obj k ;;
      if is_None o then Ok VNone else walk_path o ks'
  end.

Fixpoint get_value_with (c : column) (row : value) : result value :=
  match c with
  | Column _ (KPath ks) => walk_path row ks
  | Column _ (KStr k) => value_get row k
  | SubColumn _ k origcol =>
      sub <- value_subscript row k ;;
      get_value_with origcol sub
  end.
End GetValue.

(** ** Table: schema lookup *)

(** [self.columns[-1]] *)
Definition current_col (t : table) : result column :=
  match rev (columns t) with
  | c :: _ => Ok c
  | [] => Raise IndexError
  end.

(** [Table.colnames] *)
Definition colnames (t : table) : list string := map name (columns t).

(** [Table.get_column]: [Ok None] is Python's [return None] *)
Definition get_column (t : table) (nm : string) : result (option column) :=
  if String.eqb nm CURRENT_COLNAME then
    c <- current_col t ;; Ok (Some c)
  else
    Ok (find (fun c => String.eqb (name c) nm) (columns t)).

(** ** LazyRow: field resolution *)

(** [LazyRow.parent_row] *)
Definition parent_row (lr : lazyrow) : value := dict_get (_row lr) "__parent".

(** [LazyRow.__getitem__]: one unit of fuel per turn of the [while True]
    loop and per LazyRow entered from a column path. *)
Fixpoint LazyRow_getitem_fuel (n : nat) (k : string) (obj : lazyrow) : result value :=
  match n with
  | O => Raise OutOfFuel
  | S n' =>
      c <- get_column (_table obj) k ;;
      match c with
      | Some c => get_value_with (LazyRow_getitem_fuel n') c (VDict (_row obj))
      | None =>
          match parent_row obj with
          | VNone => Raise (KeyError k)
          | VLazyRow p => LazyRow_getitem_fuel n' k p
          | _ => Raise AttributeError
          end
      end
  end.

(** [LazyRow.__getitem__]: the size of [obj] is fuel enough
    ([LazyRow_getitem_eq], [LazyRow_getitem_total]) *)
Definition LazyRow_getitem (k : string) (obj : lazyrow) : result value :=
  LazyRow_getitem_fuel (lrsize obj) k obj.

(** [c.get_value(row)] *)
Definition get_value (c : column) (row : value) : result value :=
  get_value_with LazyRow_getitem c row.

(** [LazyRow.value] *)
Definition LazyRow_value (lr : lazyrow) : result value :=
  c <- current_col (_table lr) ;; get_value c (VDict (_row lr)).

(** ** Table: shape *)

(** [Table.__len__] *)
Definition Table_len (t : table) : nat := List.length (rows t).

(** [Table.shape]: one unit of fuel per level of nesting *)
Fixpoint shape_fuel (n : nat) (t : table) : result (list nat) :=
  match n with
  | O => Raise OutOfFuel
  | S n' =>
      if negb (is_None (scalar t)) then Ok []
      else
        let dims := [List.length (rows t)] in
        match rows t with
        | [] => Ok dims
        | row0 :: _ =>
            match columns t with
            | [] => Ok dims
            | _ :: _ =>
                c <- current_col t ;;
                firstrowval <- get_value c (VDict row0) ;;
                match firstrowval with
                | VTable t' => s <- shape_fuel n' t' ;; Ok (dims ++ s)
                | _ => Ok dims
                end
            end
        end
  end.

(** [Table.shape]: the size of [t] is fuel enough ([shape_eq], [shape_total]) *)
Definition shape (t : table) : result (list nat) := shape_fuel (tsize t) t.

(** [Table.rank] *)
Definition rank (t : table) : result nat := s <- shape t ;; Ok (List.length s).

(** ** Table: indexing and iteration *)

(** [l[k]] on a Python list: negative positions count from the end *)
Definition list_index {A : Type} (l : list A) (k : Z) : result A :=
  let i := if (k <? 0)%Z then (k + Z.of_nat (List.length l))%Z else k in
  if (i <? 0)%Z then Raise IndexError
  else match nth_error l (Z.to_nat i) with
       | Some a => Ok a
       | None => Raise IndexError
       end.

(** [Table.__getitem__] *)
Definition Table_getitem (t : table) (k : Z) : result lazyrow :=
  if (k >=? Z.of_nat (List.length (rows t)))%Z then Raise IndexError
  else r <- list_index (rows t) k ;; Ok (mkLazyRow t r).

(** [Table.__iter__], drained *)
Definition Table_iter (t : table) : list value :=
  if negb (is_None (scalar t)) then [scalar t]
  else map (fun r => VLazyRow (mkLazyRow t r)) (rows t).

(** ** Flattening: [LazyRow._asdict] and [Table._asdict] *)

Definition is_nil {A : Type} (l : list A) : bool :=
  match l with
  | [] => true
  | _ :: _ => false
  end.

(** [if k in d: del d[k]] followed by [d[k] = v] *)
Definition dict_put (d : Row) (k : string) (v : value) : Row :=
  dict_set (if dict_mem d k then dict_del d k else d) k v.

Section Flatten.
(** Python's [str(v)], used on cell values that are neither a Table nor an
    int, float or str; it is a builtin, so it is a parameter here. *)
Variable py_str : value -> result string.

(** the output key of column [c], or [None] for [continue];
    [is_current] is [c is self._table.current_col] *)
Definition asdict_key (named_only : bool) (c : column) (is_current : bool)
  : option string :=
  if hidden c then
    if named_only || negb is_current then None else Some CURRENT_COLNAME
  else Some (name c).

Section Body.
(** [r._asdict()] on the items a nested table yields *)
Variable item_asdict : value -> result value.

(** the conversion of a present cell value *)
Definition asdict_value (v : value) : result value :=
  match v with
  | VTable t =>
      rk <- rank t ;;
      if Nat.eqb rk 0 then Ok (scalar t)
      else l <- mapM item_asdict (Table_iter t) ;; Ok (VList l)
  | VBool _ | VInt _ | VFloat _ | VStr _ => Ok v
  | _ => s <- py_str v ;; Ok (VStr s)
  end.

(** one turn of the loop over the columns *)
Definition asdict_step (row : Row) (named_only : bool) (c : column)
           (is_current : bool) (d : Row) : result Row :=
  match asdict_key named_only c is_current with
  | None => Ok d
  | Some k =>
      v <- get_value c (VDict row) ;;
      if is_None v then Ok d
      else
        v' <- asdict_value v ;;
        Ok (dict_put d k v')
  end.

(** the loop; the column at hand is the table's last one exactly when no
    column is left after it (the schema holds distinct objects, see
    [add_column]) *)
Fixpoint asdict_loop (row : Row) (named_only : bool) (cs : list column)
         (d : Row) : result Row :=
  match cs with
  | [] => Ok d
  | c :: cs' =>
      let is_current := is_nil cs' in
      d' <- asdict_step row named_only c is_current d ;;
      asdict_loop row named_only cs' d'
  end.
End Body.

(** [r._asdict()], by the class of [r] *)
Definition item_asdict_of (la : lazyrow -> result Row)
           (ta : table -> result value) (r : value) : result value :=
  match r with
  | VLazyRow lr => d <- la lr ;; Ok (VDict d)
  | VTable t => ta t
  | _ => Raise AttributeError
  end.

(** the two [_asdict] methods call each other: one unit of fuel per call *)
Fixpoint LazyRow_asdict_fuel (n : nat) (named_only : bool) (lr : lazyrow)
  : result Row :=
  match n with
  | O => Raise OutOfFuel
  | S n' =>
      asdict_loop
        (item_asdict_of (LazyRow_asdict_fuel n' false) (Table_asdict_fuel n'))
        (_row lr) named_only (columns (_table lr)) []
  end
with Table_asdict_fuel (n : nat) (t : table) : result value :=
  match n with
  | O => Raise OutOfFuel
  | S n' =>
      if negb (is_None (scalar t)) then Ok (scalar t)
      else
        l <- mapM (item_asdict_of (LazyRow_asdict_fuel n' false)
                                  (Table_asdict_fuel n'))
                  (Table_iter t) ;;
        Ok (VList l)
  end.

(** [LazyRow._asdict] and [Table._asdict]: the sizes are fuel enough
    ([LazyRow_asdict_eq], [Table_asdict_eq], [asdict_total]) *)
Definition LazyRow_asdict (named_only : bool) (lr : lazyrow) : result Row :=
  LazyRow_asdict_fuel (S (dsize (_row lr))) named_only lr.

Definition Table_asdict (t : table) : result value :=
  Table_asdict_fuel (S (tsize t)) t.

Definition item_asdict : value -> result value :=
  item_asdict_of (LazyRow_asdict false) Table_asdict.
End Flatten.

(** ** Table: methods that change [self] *)

(** A computation on [self]: it may raise, and leaves a table behind either
    way. *)
Definition M (A : Type) : Type := table -> result A * table.

Definition ret {A : Type} (a : A) : M A := fun t => (Ok a, t).
Definition raise {A : Type} (e : exn) : M A := fun t => (Raise e, t).
Definition mbind {A B : Type} (m : M A) (f : A -> M B) : M B :=
  fun t =>
    match m t with
    | (Ok a, t') => f a t'
    | (Raise e, t') => (Raise e, t')
    end.
Definition self : M table := fun t => (Ok t, t).
Definition lift {A : Type} (r : result A) : M A := fun t => (r, t).

Notation "x <~ m ;; k" := (mbind m (fun x => k))
  (at level 61, m at next level, right associativity).
Notation "m ;;; k" := (mbind m (fun _ => k))
  (at level 61, right associativity).

(** [assert b] *)
Definition assert (b : bool) : M unit :=
  if b then ret tt else raise AssertionError.

(** [self.columns.append(col)] *)
Definition append_column (col : column) : M unit :=
  fun t => (Ok tt, mkTable (rows t) (columns t ++ [col]) (parent t) (scalar t)).

(** [self.rows.append(row)] *)
Definition append_row (row : Row) : M unit :=
  fun t => (Ok tt, mkTable (rows t ++ [row]) (columns t) (parent t) (scalar t)).

(** [Table.add_column] *)
Definition add_column (col : column) : M unit :=
  assert (negb (startswith (name col) "__")) ;;;
  t <~ self ;;
  match rows t with
  | row0 :: _ =>
      v <~ lift (get_value col (VDict row0)) ;;
      assert (negb (is_UNWORKING v))
  | [] => ret tt
  end ;;;
  t <~ self ;;
  if existsb (String.eqb (name col)) (colnames t) then ret tt
  else append_column col.

(** [for x in l: body(x)] *)
Fixpoint for_each {A : Type} (l : list A) (body : A -> M unit) : M unit :=
  match l with
  | [] => ret tt
  | x :: l' => body x ;;; for_each l' body
  end.

(** [Table.add_new_columns] *)
Definition add_new_columns (row : Row) : M unit :=
  for_each (dict_keys row)
    (fun k => if negb (startswith k "__") then add_column (Column_of_field k)
              else ret tt).

(** the body of the loop of [Table.__init__] *)
Definition init_row (row : value) : M unit :=
  match row with
  | VLazyRow lr => append_row (_row lr)
  | VDict d => append_row d ;;; add_new_columns d
  | _ => raise TypeError
  end.

(** [Table.__init__(rows, parent)]; [Raise] when the constructor raises *)
Definition Table_init (rows_arg : value) (parent_arg : option table) : result table :=
  match rows_arg with
  | VList items | VTuple items =>
      match for_each items init_row (mkTable [] [] parent_arg VNone) with
      | (Ok _, t) => Ok t
      | (Raise e, _) => Raise e
      end
  | _ => Ok (mkTable [] [] parent_arg rows_arg)
  end.

(** [Table.__copy__] *)
Definition Table_copy (t : table) : result table :=
  match for_each (columns t) add_column (mkTable [] [] None VNone) with
  | (Ok _, t') => Ok (mkTable [] (columns t') (parent t') (scalar t))
  | (Raise e, _) => Raise e
  end.

(** ** More of Table and LazyRow *)

(** [Table.__bool__] *)
Definition Table_bool (t : table) : bool := Nat.ltb 0 (List.length (rows t)).

(** [LazyRow.__len__] *)
Definition LazyRow_len (lr : lazyrow) : nat := List.length (columns (_table lr)).

(** [r.value] on an item that iterating a table yields *)
Definition item_value (r : value) : result value :=
  match r with
  | VLazyRow lr => LazyRow_value lr
  | _ => Raise AttributeError
  end.

(** [Table.values] *)
Definition Table_values (t : table) : result (list value) :=
  if negb (is_None (scalar t)) then Ok [scalar t]
  else mapM item_value (Table_iter t).

(** [Table.axis(rank)]: one unit of fuel per level of nesting *)
Fixpoint axis_fuel (n : nat) (t : table) (r : Z) : result table :=
  match n with
  | O => Raise OutOfFuel
  | S n' =>
      rk <- rank t ;;
      if (Z.of_nat rk >? r)%Z then
        c <- current_col t ;;
        row0 <- list_index (rows t) 0 ;;
        firstrowval <- get_value c (VDict row0) ;;
        match firstrowval with
        | VTable t' => axis_fuel n' t' r
        | _ => Raise AttributeError
        end
      else Ok t
  end.

(** [Table.axis(rank)]: the size of [t] is fuel enough ([axis_eq]) *)
Definition axis (t : table) (r : Z) : result table := axis_fuel (tsize t) t r.

Section KeysItems.
Variable py_str : value -> result string.

(** [LazyRow.keys] *)
Definition LazyRow_keys (lr : lazyrow) : result (list string) :=
  d <- LazyRow_asdict py_str false lr ;; Ok (dict_keys d).
End KeysItems.

(** ** Deep column names *)

Section DeepNames.
(** Python's [str] of a list or tuple key, which [deepname] prints for a
    column whose name is empty; it is a builtin, so a parameter here. *)
Variable key_str : list string -> string.

(** [self.name or self.key], as the f-string of [deepcolnames] prints it *)
Definition name_or_key (c : column) : string :=
  if String.eqb (name c) "" then
    match c with
    | Column _ (KStr k) => k
    | Column _ (KPath ks) => key_str ks
    | SubColumn _ k _ => k
    end
  else name c.

(** [Column.deepname(table)], over the [deepcolnames] of a nested table *)
Definition deepname_with (deep : table -> result string) (c : column) (t : table)
  : result string :=
  match rows t with
  | row0 :: _ =>
      r <- get_value c (VDict row0) ;;
      match r with
      | VTable t' => s <- deep t' ;; Ok (String.append (name c) (String.append ":" s))
      | _ => Ok (name_or_key c)
      end
  | [] => Ok (name_or_key c)
  end.

(** the generator of [deepcolnames]: the columns that are not hidden, and
    the current (last) one *)
Fixpoint deep_loop (deep : table -> result string) (t : table) (cs : list column)
  : result (list string) :=
  match cs with
  | [] => Ok []
  | c :: cs' =>
      if negb (hidden c) || is_nil cs' then
        s <- deepname_with deep c t ;;
        rest <- deep_loop deep t cs' ;;
        Ok (s :: rest)
      else deep_loop deep t cs'
  end.

(** [','.join(names) or "no cols"] *)
Definition join_or_no_cols (names : list string) : string :=
  let s := String.concat "," names in
  if String.eqb s "" then "no cols" else s.

(** [Table.deepcolnames]: one unit of fuel per level of nesting *)
Fixpoint deepcolnames_fuel (n : nat) (t : table) : result string :=
  match n with
  | O => Raise OutOfFuel
  | S n' =>
      names <- deep_loop (deepcolnames_fuel n') t (columns t) ;;
      Ok (join_or_no_cols names)
  end.

(** [Table.deepcolnames]: the size of [t] is fuel enough
    ([deepcolnames_eq]) *)
Definition deepcolnames (t : table) : result string :=
  deepcolnames_fuel (tsize t) t.

(** [Column.deepname(table)] *)
Definition deepname (c : column) (t : table) : result string :=
  deepname_with deepcolnames c t.
End DeepNames.

(** ** Notions used to state the properties *)

(** an item whose flattening needs less fuel than [bound] *)
Definition small_item (bound : nat) (r : value) : Prop :=
  match r with
  | VLazyRow lr => dsize (_row lr) < bound
  | VTable t => tsize t < bound
  | _ => True
  end.

(** [isinstance(rows, (list, tuple))] *)
Definition is_sequence (v : value) : bool :=
  match v with
  | VList _ | VTuple _ => true
  | _ => false
  end.

(** no column of [t] is named [k] *)
Definition no_column_named (k : string) (t : table) : Prop :=
  forall c, In c (columns t) -> name c <> k.

(** [c] is the first column of [t] named [k] *)
Definition first_column_named (k : string) (t : table) (c : column) : Prop :=
  exists cs1 cs2, columns t = cs1 ++ c :: cs2 /\ name c = k
                  /\ forall c', In c' cs1 -> name c' <> k.

(** Walking up the [__parent] links from [lr], [a] is the nearest LazyRow
    whose table has a column named [k], and [c] is that column; the table of
    [lr] itself has none. *)
Inductive resolves_in_ancestor (k : string) : lazyrow -> lazyrow -> column -> Prop :=
| resolves_parent lr p c :
    no_column_named k (_table lr) -> parent_row lr = VLazyRow p ->
    first_column_named k (_table p) c ->
    resolves_in_ancestor k lr p c
| resolves_further lr p a c :
    no_column_named k (_table lr) -> parent_row lr = VLazyRow p ->
    resolves_in_ancestor k p a c ->
    resolves_in_ancestor k lr a c.

(** No table on the chain of [__parent] links from [lr] has a column named
    [k], and the chain ends (no [__parent], or None under it). *)
Inductive chain_without (k : string) : lazyrow -> Prop :=
| chain_end lr :
    no_column_named k (_table lr) -> parent_row lr = VNone -> chain_without k lr
| chain_step lr p :
    no_column_named k (_table lr) -> parent_row lr = VLazyRow p ->
    chain_without k p -> chain_without k lr.

(** the assertion of [add_column] on the first row, when there is one *)
Definition add_column_guard (col : column) (t : table) : result unit :=
  match rows t with
  | row0 :: _ =>
      v <- get_value col (VDict row0) ;;
      if is_UNWORKING v then Raise AssertionError else Ok tt
  | [] => Ok tt
  end.

(** the Row that an input of the constructor contributes *)
Definition input_row (x : value) : Row :=
  match x with
  | VLazyRow lr => _row lr
  | VDict d => d
  | _ => []
  end.

(** an input the constructor accepts: a LazyRow or a plain mapping *)
Definition is_row_input (x : value) : bool :=
  match x with
  | VLazyRow _ | VDict _ => true
  | _ => false
  end.

(** the field names of a plain mapping without the reserved ones; a LazyRow
    has none to register *)
Definition field_names (x : value) : list string :=
  match x with
  | VDict d => filter (fun k => negb (startswith k "__")) (dict_keys d)
  | _ => []
  end.

(** the names of [l] in first-seen order: each kept where it occurs first *)
Fixpoint first_seen (l : list string) : list string :=
  match l with
  | [] => []
  | k :: l' => k :: filter (fun k' => negb (String.eqb k' k)) (first_seen l')
  end.

(** what a run of [add_column]s does to the column names *)
Definition add_names (acc ks : list string) : list string :=
  fold_left (fun acc k => if existsb (String.eqb k) acc then acc else acc ++ [k]) ks acc.

(** [isinstance(v, (int, float, str))]; a bool is an int *)
Definition is_primitive (v : value) : bool :=
  match v with
  | VBool _ | VInt _ | VFloat _ | VStr _ => true
  | _ => false
  end.

(** the table [t] without its hidden columns *)
Definition without_hidden (t : table) : table :=
  mkTable (rows t) (filter (fun c => negb (hidden c)) (columns t)) (parent t) (scalar t).

(** [d'] is the mapping reached from [d] through the nested mappings under
    the keys [pre], in order *)
Inductive reach : Row -> list string -> Row -> Prop :=
| reach_here d : reach d [] d
| reach_step d k d1 pre d' :
    dict_lookup d k = Some (VDict d1) -> reach d1 pre d' -> reach d (k :: pre) d'.

(** [k] is not a key of [d], or [d] maps it to None *)
Definition missing_or_None (d : Row) (k : string) : Prop :=
  dict_lookup d k = None \/ dict_lookup d k = Some VNone.

(** following the column key [key] from the row [d] meets a field that is
    missing or None: the field itself, or a step of the path *)
Inductive void_at : colkey -> Row -> Prop :=
| void_field k d : missing_or_None d k -> void_at (KStr k) d
| void_path pre k post d d' :
    reach d pre d' -> missing_or_None d' k -> void_at (KPath (pre ++ k :: post)) d.

(** ** Example data *)

Definition ex_flat_rows : value :=
  VList [VDict [("a", VInt 1); ("b", VInt 2)]; VDict [("a", VInt 3); ("b", VInt 4)]].

Definition ex_flat : table :=
  mkTable [[("a", VInt 1); ("b", VInt 2)]; [("a", VInt 3); ("b", VInt 4)]]
          [Column "a" (KStr "a"); Column "b" (KStr "b")] None VNone.

Definition ex_subcol : column := SubColumn_init "sub" (Column "y" (KStr "y")).

Definition ex_str : value -> result string := fun _ => Ok "<object>".

Definition ex_inner2 : table :=
  mkTable [[("y", VInt 1)]; [("y", VInt 2)]] [Column "y" (KStr "y")] None VNone.
Definition ex_inner3 : table :=
  mkTable [[("z", VInt 1)]; [("z", VInt 2)]; [("z", VInt 3)]]
          [Column "z" (KStr "z")] None VNone.
Definition ex_outer : table :=
  mkTable [[("w", VTable ex_inner3); ("x", VTable ex_inner2)]]
          [Column "w" (KStr "w"); Column "x" (KStr "x")] None VNone.

Definition ex_parent_lr : lazyrow := mkLazyRow ex_flat [("a", VInt 1); ("b", VInt 2)].

Definition ex_child : table :=
  mkTable [[("c", VInt 9); ("__parent", VLazyRow ex_parent_lr)]]
          [Column "c" (KStr "c")] None VNone.

Definition ex_child_lr : lazyrow :=
  mkLazyRow ex_child [("c", VInt 9); ("__parent", VLazyRow ex_parent_lr)].

Definition ex_mixed_rows : value :=
  VList [VDict [("a", VInt 1); ("b", VInt 2); ("__parent", VNone)];
         VLazyRow ex_child_lr;
         VDict [("b", VInt 3); ("_h", VInt 4); ("a", VInt 5)]].

Definition ex_hidden_row : Row :=
  [("a", VInt 0); ("b", VStr ""); ("c", VNone);
   ("n", VDict [("x", VNone)]); ("_tmp", VInt 7)].

Definition ex_hidden : table :=
  mkTable [ex_hidden_row]
          [Column "a" (KStr "a"); Column "b" (KStr "b"); Column "c" (KStr "c");
           Column "d" (KPath ["n"; "x"; "y"]); Column "e" (KStr "zz");
           Column "_tmp" (KStr "_tmp")]
          None VNone.

Definition ex_hidden_lr : lazyrow := mkLazyRow ex_hidden ex_hidden_row.

Definition ex_hidden_out : Row := [("a", VInt 0); ("b", VStr ""); ("_", VInt 7)].
Definition ex_hidden_named : Row := [("a", VInt 0); ("b", VStr "")].

Definition ex_nested : table :=
  mkTable [[("x", VTable ex_inner2)]] [Column "x" (KStr "x")] None VNone.

Definition ex_orphan_lr : lazyrow := mkLazyRow ex_child [("c", VInt 9)].

(** ** Notions used by the further properties *)

(** no column of [t] has a name with the reserved prefix *)
Definition no_reserved_names (t : table) : Prop :=
  forall c, In c (columns t) -> startswith (name c) "__" = false.

(** every column of [t] is the plain column of a field, as [add_new_columns]
    makes them *)
Definition field_columns (t : table) : Prop :=
  forall c, In c (columns t) -> c = Column_of_field (name c).

(** [isinstance(row, LazyRow)] *)
Definition is_lazyrow (x : value) : bool :=
  match x with
  | VLazyRow _ => true
  | _ => false
  end.

(** what a run of [add_column]s does to the columns of a table without rows:
    a column is appended unless its name is taken *)
Definition add_cols (acc cs : list column) : list column :=
  fold_left (fun acc c => if existsb (String.eqb (name c)) (map name acc) then acc
                          else acc ++ [c]) cs acc.

Definition ex_shadow_parent : lazyrow :=
  mkLazyRow (mkTable [[("c", VInt 1)]] [Column "c" (KStr "c")] None VNone)
            [("c", VInt 1)].

Definition ex_shadow : table :=
  mkTable [[("c", VNone); ("__parent", VLazyRow ex_shadow_parent)]]
          [Column "c" (KStr "c")] None VNone.

(** a value without [.get]: neither a dict nor a LazyRow *)
Definition no_get (v : value) : bool :=
  match v with
  | VDict _ | VLazyRow _ => false
  | _ => true
  end.

(** [isinstance(v, Table)] *)
Definition is_Table (v : value) : bool :=
  match v with
  | VTable _ => true
  | _ => false
  end.

Definition ex_deep_row : Row :=
  [("n", VDict [("m", VDict [("x", VInt 4)]); ("i", VInt 1)])].

(** the keys the loop of [_asdict] puts for the columns [cs], in order: the
    key of each retained column whose value on the row is present *)
Fixpoint put_keys (named_only : bool) (row : Row) (cs : list column) : list string :=
  match cs with
  | [] => []
  | c :: cs' =>
      match asdict_key named_only c (is_nil cs'), get_value c (VDict row) with
      | Some k, Ok v => if is_None v then put_keys named_only row cs'
                        else k :: put_keys named_only row cs'
      | _, _ => put_keys named_only row cs'
      end
  end.

Definition ex_twice : table :=
  mkTable [[("x", VInt 1); ("y", VInt 2)]]
          [Column "a" (KStr "x"); Column "a" (KStr "y")] None VNone.

Definition ex_cells : table :=
  mkTable [[("t", VTable ex_inner2); ("s", VTable (mkTable [] [] None (VInt 5)));
            ("o", VList [])]]
          [Column "t" (KStr "t"); Column "s" (KStr "s"); Column "o" (KStr "o")]
          None VNone.

Definition ex_cells_row : Row :=
  [("t", VTable ex_inner2); ("s", VTable (mkTable [] [] None (VInt 5)));
   ("o", VList [])].

(** the columns [deepcolnames] shows: those not hidden, and the last one *)
Fixpoint shown_columns (cs : list column) : list column :=
  match cs with
  | [] => []
  | c :: cs' =>
      if negb (hidden c) || is_nil cs' then c :: shown_columns cs'
      else shown_columns cs'
  end.

Definition ex_key_str : list string -> string := fun _ => "[]".

(** * Properties *)

(** ** Sizes *)

Lemma vsize_pos (v : value) : 1 <= vsize v.
Proof. destruct v; simpl; lia. Qed.

Lemma vsize_VDict (d : Row) : vsize (VDict d) = S (dsize d).
Proof. reflexivity. Qed.

Lemma lrsize_eq (lr : lazyrow) : lrsize lr = S (tsize (_table lr) + dsize (_row lr)).
Proof. destruct lr; reflexivity. Qed.

Lemma tsize_eq (t : table) :
  tsize t = S (list_sum (map (fun r => S (dsize r)) (rows t))
               + match parent t with Some t' => tsize t' | None => 0 end
               + vsize (scalar t)).
Proof. destruct t; reflexivity. Qed.

Lemma dict_lookup_size (d : Row) (k : string) (v : value) :
  dict_lookup d k = Some v -> S (vsize v) <= dsize d.
Proof.
  unfold dsize. induction d as [|[k' v'] d IH]; simpl; [discriminate|].
  destruct (String.eqb k' k).
  - intros [= ->]. lia.
  - intros H. apply IH in H. lia.
Qed.

Lemma dict_get_size (d : Row) (k : string) : vsize (dict_get d k) <= S (dsize d).
Proof.
  unfold dict_get. destruct (dict_lookup d k) eqn:E.
  - apply dict_lookup_size in E. lia.
  - simpl. lia.
Qed.

Lemma dict_get_inv (d : Row) (k : string) (v : value) :
  dict_get d k = v -> v <> VNone -> dict_lookup d k = Some v.
Proof.
  unfold dict_get. destruct (dict_lookup d k); intros; subst; congruence.
Qed.

Lemma row_size_in (r : Row) (rs : list Row) :
  In r rs -> S (dsize r) <= list_sum (map (fun r => S (dsize r)) rs).
Proof.
  induction rs as [|r' rs IH]; simpl; [tauto|].
  intros [->|H]; [lia | apply IH in H; lia].
Qed.

Lemma tsize_row (t : table) (r : Row) : In r (rows t) -> dsize r + 3 <= tsize t.
Proof.
  intros H. apply row_size_in in H. rewrite tsize_eq.
  pose proof (vsize_pos (scalar t)). lia.
Qed.

Lemma tsize_scalar (t : table) : vsize (scalar t) < tsize t.
Proof. rewrite tsize_eq. lia. Qed.

(** ** Field resolution: the fuel taken from the size is enough *)

Section GetValueFacts.
Variables g1 g2 : string -> lazyrow -> result value.
Variable bound : nat.
Hypothesis g_agree : forall k lr, lrsize lr < bound -> g1 k lr = g2 k lr.
Hypothesis g_small : forall k lr v, g1 k lr = Ok v -> vsize v <= lrsize lr.

Lemma value_get_small obj k v :
  value_get g1 obj k = Ok v -> vsize v <= vsize obj.
Proof.
  destruct obj; simpl; try discriminate.
  - intros [= <-]. apply dict_get_size.
  - destruct (g1 k lr) as [a|e] eqn:E.
    + intros [= <-]. apply g_small in E. lia.
    + destruct e; try discriminate. intros [= <-]. simpl. lia.
Qed.

Lemma value_subscript_small obj k v :
  value_subscript g1 obj k = Ok v -> vsize v <= vsize obj.
Proof.
  destruct obj; simpl; try discriminate.
  - destruct (dict_lookup d k) eqn:E; [|discriminate].
    intros [= <-]. apply dict_lookup_size in E. unfold dsize in E. lia.
  - intros E. apply g_small in E. lia.
Qed.

Lemma walk_path_small ks : forall obj v,
  walk_path g1 obj ks = Ok v -> vsize v <= vsize obj.
Proof.
  induction ks as [|k ks IH]; simpl; intros obj v.
  - intros [= <-]. lia.
  - destruct (value_get g1 obj k) as [o|e] eqn:E; simpl; [|discriminate].
    apply value_get_small in E.
    destruct (is_None o).
    + intros [= <-]. simpl. pose proof (vsize_pos obj). lia.
    + intros H. apply IH in H. lia.
Qed.

Lemma get_value_with_small c : forall obj v,
  get_value_with g1 c obj = Ok v -> vsize v <= vsize obj.
Proof.
  induction c as [n [k|ks]|n k c IH]; simpl; intros obj v.
  - apply value_get_small.
  - apply walk_path_small.
  - destruct (value_subscript g1 obj k) as [sub|e] eqn:E; simpl; [|discriminate].
    apply value_subscript_small in E. intros H. apply IH in H. lia.
Qed.

Lemma value_get_agree obj k :
  vsize obj <= bound -> value_get g1 obj k = value_get g2 obj k.
Proof.
  destruct obj; simpl; try reflexivity.
  intros H. rewrite g_agree by lia. reflexivity.
Qed.

Lemma value_subscript_agree obj k :
  vsize obj <= bound -> value_subscript g1 obj k = value_subscript g2 obj k.
Proof.
  destruct obj; simpl; try reflexivity.
  intros H. apply g_agree. lia.
Qed.

Lemma walk_path_agree ks : forall obj,
  vsize obj <= bound -> walk_path g1 obj ks = walk_path g2 obj ks.
Proof.
  induction ks as [|k ks IH]; simpl; intros obj Hb; [reflexivity|].
  rewrite <- (value_get_agree obj k Hb).
  destruct (value_get g1 obj k) as [o|e] eqn:E; simpl; [|reflexivity].
  apply value_get_small in E.
  destruct (is_None o); [reflexivity|]. apply IH. lia.
Qed.

Lemma get_value_with_agree c : forall obj,
  vsize obj <= bound -> get_value_with g1 c obj = get_value_with g2 c obj.
Proof.
  induction c as [n [k|ks]|n k c IH]; simpl; intros obj Hb.
  - now apply value_get_agree.
  - now apply walk_path_agree.
  - rewrite <- (value_subscript_agree obj k Hb).
    destruct (value_subscript g1 obj k) as [sub|e] eqn:E; simpl; [|reflexivity].
    apply value_subscript_small in E. apply IH. lia.
Qed.
End GetValueFacts.

Lemma parent_row_size (lr p : lazyrow) :
  parent_row lr = VLazyRow p -> lrsize p + 2 <= dsize (_row lr).
Proof.
  unfold parent_row. intros H.
  apply dict_get_inv in H; [|discriminate].
  apply dict_lookup_size in H. simpl in H. lia.
Qed.

Lemma LazyRow_getitem_fuel_small (n : nat) : forall k lr v,
  LazyRow_getitem_fuel n k lr = Ok v -> vsize v <= lrsize lr.
Proof.
  induction n as [|n IH]; simpl; intros k lr v; [discriminate|].
  destruct (get_column (_table lr) k) as [[c|]|e]; simpl; try discriminate.
  - intros H. apply get_value_with_small in H; [|exact IH].
    rewrite vsize_VDict in H. rewrite lrsize_eq. lia.
  - destruct (parent_row lr) eqn:E; try discriminate.
    intros H. apply IH in H. apply parent_row_size in E.
    rewrite (lrsize_eq lr). lia.
Qed.

Lemma tsize_pos (t : table) : 2 <= tsize t.
Proof. rewrite tsize_eq. pose proof (vsize_pos (scalar t)). lia. Qed.

Lemma LazyRow_getitem_fuel_enough (n : nat) : forall m k lr,
  lrsize lr <= n -> lrsize lr <= m ->
  LazyRow_getitem_fuel n k lr = LazyRow_getitem_fuel m k lr.
Proof.
  induction n as [|n IH]; intros m k lr Hn Hm.
  - rewrite lrsize_eq in Hn. lia.
  - destruct m as [|m]; [rewrite lrsize_eq in Hm; lia|]. simpl.
    rewrite lrsize_eq in Hn, Hm. pose proof (tsize_pos (_table lr)).
    destruct (get_column (_table lr) k) as [[c|]|e]; simpl; try reflexivity.
    + apply get_value_with_agree with (bound := S (Nat.min n m)).
      * intros k' lr' Hlr'. apply IH; lia.
      * apply LazyRow_getitem_fuel_small.
      * rewrite vsize_VDict. lia.
    + destruct (parent_row lr) eqn:E; try reflexivity.
      apply parent_row_size in E. apply IH; lia.
Qed.

Lemma LazyRow_getitem_small (k : string) (lr : lazyrow) (v : value) :
  LazyRow_getitem k lr = Ok v -> vsize v <= lrsize lr.
Proof. apply LazyRow_getitem_fuel_small. Qed.

Lemma get_value_small (c : column) (obj v : value) :
  get_value c obj = Ok v -> vsize v <= vsize obj.
Proof. apply get_value_with_small. exact LazyRow_getitem_small. Qed.

(** [LazyRow.__getitem__], as the source writes it *)
Lemma LazyRow_getitem_eq (k : string) (obj : lazyrow) :
  LazyRow_getitem k obj =
    (c <- get_column (_table obj) k ;;
     match c with
     | Some c => get_value c (VDict (_row obj))
     | None =>
         match parent_row obj with
         | VNone => Raise (KeyError k)
         | VLazyRow p => LazyRow_getitem k p
         | _ => Raise AttributeError
         end
     end).
Proof.
  unfold LazyRow_getitem at 1. pose proof (lrsize_eq obj) as E.
  rewrite E. simpl.
  pose proof (tsize_pos (_table obj)).
  destruct (get_column (_table obj) k) as [[c|]|e]; simpl; try reflexivity.
  - unfold get_value.
    apply get_value_with_agree with (bound := S (dsize (_row obj))).
    + intros k' lr' Hlr'. apply LazyRow_getitem_fuel_enough; lia.
    + apply LazyRow_getitem_fuel_small.
    + rewrite vsize_VDict. lia.
  - destruct (parent_row obj) eqn:Ep; try reflexivity.
    apply parent_row_size in Ep. apply LazyRow_getitem_fuel_enough; lia.
Qed.

(** [Column.get_value] and [SubColumn.get_value], as the source writes them *)
Lemma get_value_eq (c : column) (row : value) :
  get_value c row =
    match c with
    | Column _ (KPath ks) => walk_path LazyRow_getitem row ks
    | Column _ (KStr k) => value_get LazyRow_getitem row k
    | SubColumn _ k origcol =>
        sub <- value_subscript LazyRow_getitem row k ;; get_value origcol sub
    end.
Proof. destruct c as [n [k|ks]|n k c]; reflexivity. Qed.

(** ** Shape: the fuel taken from the size is enough *)

Lemma current_col_in (t : table) (c : column) :
  current_col t = Ok c -> exists cs, columns t = cs ++ [c].
Proof.
  unfold current_col. destruct (rev (columns t)) as [|c' l] eqn:E; [discriminate|].
  intros [= <-]. exists (rev l).
  rewrite <- (rev_involutive (columns t)), E. reflexivity.
Qed.

Lemma current_col_app (rs : list Row) (cs : list column) (c : column)
      (p : option table) (s : value) :
  current_col (mkTable rs (cs ++ [c]) p s) = Ok c.
Proof. unfold current_col. simpl. rewrite rev_app_distr. reflexivity. Qed.

Lemma shape_fuel_enough (n : nat) : forall m t,
  tsize t <= n -> tsize t <= m -> shape_fuel n t = shape_fuel m t.
Proof.
  induction n as [|n IH]; intros m t Hn Hm.
  - pose proof (tsize_pos t). lia.
  - destruct m as [|m]; [pose proof (tsize_pos t); lia|]. simpl.
    destruct (negb (is_None (scalar t))); [reflexivity|].
    destruct (rows t) as [|row0 rs] eqn:Er; [reflexivity|].
    destruct (columns t) as [|c0 cs]; [reflexivity|].
    destruct (current_col t) as [c|e]; simpl; [|reflexivity].
    destruct (get_value c (VDict row0)) as [v|e] eqn:Ev; simpl; [|reflexivity].
    destruct v; try reflexivity.
    apply get_value_small in Ev. rewrite vsize_VDict in Ev. simpl in Ev.
    assert (In row0 (rows t)) as Hin by (rewrite Er; now left).
    apply tsize_row in Hin.
    rewrite (IH m t0) by lia. reflexivity.
Qed.

(** [Table.shape], as the source writes it *)
Lemma shape_eq (t : table) :
  shape t =
    if negb (is_None (scalar t)) then Ok []
    else
      let dims := [List.length (rows t)] in
      match rows t with
      | [] => Ok dims
      | row0 :: _ =>
          match columns t with
          | [] => Ok dims
          | _ :: _ =>
              c <- current_col t ;;
              firstrowval <- get_value c (VDict row0) ;;
              match firstrowval with
              | VTable t' => s <- shape t' ;; Ok (dims ++ s)
              | _ => Ok dims
              end
          end
      end.
Proof.
  unfold shape at 1. pose proof (tsize_pos t) as Hp.
  destruct (tsize t) as [|n] eqn:En; [lia|]. simpl.
  destruct (negb (is_None (scalar t))); [reflexivity|].
  destruct (rows t) as [|row0 rs] eqn:Er; [reflexivity|].
  destruct (columns t) as [|c0 cs]; [reflexivity|].
  destruct (current_col t) as [c|e]; simpl; [|reflexivity].
  destruct (get_value c (VDict row0)) as [v|e] eqn:Ev; simpl; [|reflexivity].
  destruct v; try reflexivity.
  apply get_value_small in Ev. rewrite vsize_VDict in Ev. simpl in Ev.
  assert (In row0 (rows t)) as Hin by (rewrite Er; now left).
  apply tsize_row in Hin.
  unfold shape. rewrite (shape_fuel_enough n (tsize t0) t0) by lia. reflexivity.
Qed.

(** ** Flattening: the fuel taken from the size is enough *)

Lemma Table_iter_small (t : table) (r : value) :
  In r (Table_iter t) -> small_item (tsize t) r.
Proof.
  unfold Table_iter. destruct (negb (is_None (scalar t))).
  - intros [<-|[]]. pose proof (tsize_scalar t) as H.
    destruct (scalar t); simpl in *; try exact I; try lia.
    rewrite lrsize_eq in H. lia.
  - rewrite in_map_iff. intros (r' & <- & Hin). simpl.
    apply tsize_row in Hin. lia.
Qed.

Lemma small_item_le (b b' : nat) (r : value) :
  b <= b' -> small_item b r -> small_item b' r.
Proof. destruct r; simpl; auto; lia. Qed.

Lemma mapM_ext {A B : Type} (f g : A -> result B) (l : list A) :
  (forall a, In a l -> f a = g a) -> mapM f l = mapM g l.
Proof.
  induction l as [|a l IH]; simpl; intros H; [reflexivity|].
  rewrite (H a) by now left. rewrite IH; [reflexivity|].
  intros a' Ha'. apply H. now right.
Qed.

Section FlattenFacts.
Variable py_str : value -> result string.

Section LoopExt.
Variables i1 i2 : value -> result value.
Variable row : Row.
Hypothesis i_agree : forall r, small_item (dsize row) r -> i1 r = i2 r.

Lemma asdict_value_ext (v : value) :
  vsize v <= S (dsize row) ->
  asdict_value py_str i1 v = asdict_value py_str i2 v.
Proof.
  destruct v; simpl; try reflexivity. intros Hv.
  destruct (rank t) as [rk|e]; simpl; [|reflexivity].
  destruct (Nat.eqb rk 0); [reflexivity|].
  rewrite (mapM_ext i1 i2); [reflexivity|].
  intros r Hr. apply i_agree. apply Table_iter_small in Hr.
  apply small_item_le with (b := tsize t); [lia|exact Hr].
Qed.

Lemma asdict_step_ext named_only c is_current d :
  asdict_step py_str i1 row named_only c is_current d
  = asdict_step py_str i2 row named_only c is_current d.
Proof.
  unfold asdict_step. destruct (asdict_key named_only c is_current); [|reflexivity].
  destruct (get_value c (VDict row)) as [v|e] eqn:Ev; simpl; [|reflexivity].
  apply get_value_small in Ev. rewrite vsize_VDict in Ev.
  destruct (is_None v); [reflexivity|].
  rewrite (asdict_value_ext v Ev). reflexivity.
Qed.

Lemma asdict_loop_ext named_only cs : forall d,
  asdict_loop py_str i1 row named_only cs d
  = asdict_loop py_str i2 row named_only cs d.
Proof.
  induction cs as [|c cs IH]; simpl; intros d; [reflexivity|].
  rewrite asdict_step_ext.
  destruct (asdict_step py_str i2 row named_only c _ d); simpl;
    [apply IH|reflexivity].
Qed.
End LoopExt.

Lemma item_asdict_of_ext la1 la2 ta1 ta2 bound :
  (forall lr, dsize (_row lr) < bound -> la1 lr = la2 lr) ->
  (forall t, tsize t < bound -> ta1 t = ta2 t) ->
  forall r, small_item bound r ->
       item_asdict_of la1 ta1 r = item_asdict_of la2 ta2 r.
Proof.
  intros Hla Hta r Hr. destruct r; simpl in *; try reflexivity.
  - now apply Hta.
  - now rewrite Hla.
Qed.

Lemma asdict_fuel_enough (n : nat) : forall m,
  (forall named_only lr, dsize (_row lr) < n -> dsize (_row lr) < m ->
     LazyRow_asdict_fuel py_str n named_only lr
     = LazyRow_asdict_fuel py_str m named_only lr)
  /\ (forall t, tsize t < n -> tsize t < m ->
     Table_asdict_fuel py_str n t = Table_asdict_fuel py_str m t).
Proof.
  induction n as [|n IH]; intros m; [split; intros; lia|].
  destruct m as [|m]; [split; intros; lia|].
  destruct (IH m) as [IHl IHt].
  split.
  - intros named_only lr Hn Hm. simpl.
    apply asdict_loop_ext. intros r Hr.
    apply item_asdict_of_ext with (bound := dsize (_row lr)); [| |exact Hr].
    + intros lr' Hlr'. apply IHl; lia.
    + intros t' Ht'. apply IHt; lia.
  - intros t Hn Hm. simpl.
    destruct (negb (is_None (scalar t))); [reflexivity|].
    rewrite (mapM_ext _ (item_asdict_of (LazyRow_asdict_fuel py_str m false)
                                        (Table_asdict_fuel py_str m)));
      [reflexivity|].
    intros r Hr. apply Table_iter_small in Hr.
    apply item_asdict_of_ext with (bound := tsize t); [| |exact Hr].
    + intros lr' Hlr'. apply IHl; lia.
    + intros t' Ht'. apply IHt; lia.
Qed.

Lemma item_asdict_fuel (n bound : nat) (r : value) :
  bound <= n -> small_item bound r ->
  item_asdict_of (LazyRow_asdict_fuel py_str n false) (Table_asdict_fuel py_str n) r
  = item_asdict py_str r.
Proof.
  intros Hn Hr. unfold item_asdict.
  apply item_asdict_of_ext with (bound := bound); [| |exact Hr].
  - intros lr Hlr. unfold LazyRow_asdict.
    apply (asdict_fuel_enough n (S (dsize (_row lr)))); lia.
  - intros t Ht. unfold Table_asdict.
    apply (asdict_fuel_enough n (S (tsize t))); lia.
Qed.

(** [LazyRow._asdict], as the source writes it *)
Lemma LazyRow_asdict_eq (named_only : bool) (lr : lazyrow) :
  LazyRow_asdict py_str named_only lr
  = asdict_loop py_str (item_asdict py_str) (_row lr) named_only
                (columns (_table lr)) [].
Proof.
  unfold LazyRow_asdict. simpl. apply asdict_loop_ext.
  intros r Hr. apply item_asdict_fuel with (bound := dsize (_row lr)); auto.
Qed.

(** [Table._asdict], as the source writes it *)
Lemma Table_asdict_eq (t : table) :
  Table_asdict py_str t
  = if negb (is_None (scalar t)) then Ok (scalar t)
    else l <- mapM (item_asdict py_str) (Table_iter t) ;; Ok (VList l).
Proof.
  unfold Table_asdict. simpl.
  destruct (negb (is_None (scalar t))); [reflexivity|].
  rewrite (mapM_ext _ (item_asdict py_str)); [reflexivity|].
  intros r Hr. apply Table_iter_small in Hr.
  apply item_asdict_fuel with (bound := tsize t); auto.
Qed.
End FlattenFacts.

(** ** The fuel never runs out *)

Section GetValueTotal.
Variable g : string -> lazyrow -> result value.
Variable bound : nat.
Hypothesis g_total : forall k lr, lrsize lr < bound -> g k lr <> Raise OutOfFuel.
Hypothesis g_small : forall k lr v, g k lr = Ok v -> vsize v <= lrsize lr.

Lemma value_get_total obj k :
  vsize obj <= bound -> value_get g obj k <> Raise OutOfFuel.
Proof.
  destruct obj; simpl; try discriminate. intros Hb.
  pose proof (g_total k lr ltac:(lia)) as H.
  destruct (g k lr) as [v|[]]; try discriminate. congruence.
Qed.

Lemma value_subscript_total obj k :
  vsize obj <= bound -> value_subscript g obj k <> Raise OutOfFuel.
Proof.
  destruct obj; simpl; try discriminate.
  - destruct (dict_lookup d k); discriminate.
  - intros Hb. apply g_total. lia.
Qed.

Lemma walk_path_total ks : forall obj,
  vsize obj <= bound -> walk_path g obj ks <> Raise OutOfFuel.
Proof.
  induction ks as [|k ks IH]; simpl; intros obj Hb; [discriminate|].
  pose proof (value_get_total obj k Hb) as Ht.
  destruct (value_get g obj k) as [o|e] eqn:E; simpl; [|congruence].
  apply (value_get_small g g_small) in E.
  destruct (is_None o); [discriminate|]. apply IH. lia.
Qed.

Lemma get_value_with_total c : forall obj,
  vsize obj <= bound -> get_value_with g c obj <> Raise OutOfFuel.
Proof.
  induction c as [n [k|ks]|n k c IH]; simpl; intros obj Hb.
  - now apply value_get_total.
  - now apply walk_path_total.
  - pose proof (value_subscript_total obj k Hb) as Ht.
    destruct (value_subscript g obj k) as [sub|e] eqn:E; simpl; [|congruence].
    apply (value_subscript_small g g_small) in E. apply IH. lia.
Qed.
End GetValueTotal.

Lemma get_column_total (t : table) (k : string) : get_column t k <> Raise OutOfFuel.
Proof.
  unfold get_column, current_col.
  destruct (String.eqb k CURRENT_COLNAME); [|discriminate].
  destruct (rev (columns t)); discriminate.
Qed.

Lemma LazyRow_getitem_fuel_total (n : nat) : forall k lr,
  lrsize lr <= n -> LazyRow_getitem_fuel n k lr <> Raise OutOfFuel.
Proof.
  induction n as [|n IH]; intros k lr Hn.
  - rewrite lrsize_eq in Hn. lia.
  - simpl. rewrite lrsize_eq in Hn. pose proof (tsize_pos (_table lr)).
    pose proof (get_column_total (_table lr) k) as Hc.
    destruct (get_column (_table lr) k) as [[c|]|e]; simpl; [| |congruence].
    + apply get_value_with_total with (bound := S n).
      * intros k' lr' Hlr'. apply IH. lia.
      * apply LazyRow_getitem_fuel_small.
      * rewrite vsize_VDict. lia.
    + destruct (parent_row lr) eqn:E; try discriminate.
      apply parent_row_size in E. apply IH. lia.
Qed.

(** lookup and [get_value] always answer: a value or a Python exception *)
Lemma LazyRow_getitem_total (k : string) (lr : lazyrow) :
  LazyRow_getitem k lr <> Raise OutOfFuel.
Proof. apply LazyRow_getitem_fuel_total. lia. Qed.

Lemma get_value_total (c : column) (obj : value) :
  get_value c obj <> Raise OutOfFuel.
Proof.
  apply get_value_with_total with (bound := vsize obj).
  - intros k lr _. apply LazyRow_getitem_total.
  - exact LazyRow_getitem_small.
  - lia.
Qed.

Lemma shape_fuel_total (n : nat) : forall t,
  tsize t <= n -> shape_fuel n t <> Raise OutOfFuel.
Proof.
  induction n as [|n IH]; intros t Hn.
  - pose proof (tsize_pos t). lia.
  - simpl. destruct (negb (is_None (scalar t))); [discriminate|].
    destruct (rows t) as [|row0 rs] eqn:Er; [discriminate|].
    destruct (columns t) as [|c0 cs]; [discriminate|].
    unfold current_col. destruct (rev (columns t)) as [|c l]; simpl; [discriminate|].
    pose proof (get_value_total c (VDict row0)) as Hg.
    destruct (get_value c (VDict row0)) as [v|e] eqn:Ev; simpl; [|congruence].
    destruct v; try discriminate.
    apply get_value_small in Ev. rewrite vsize_VDict in Ev. simpl in Ev.
    assert (In row0 (rows t)) as Hin by (rewrite Er; now left).
    apply tsize_row in Hin.
    pose proof (IH t0 ltac:(lia)) as Hs.
    destruct (shape_fuel n t0); simpl; [discriminate|congruence].
Qed.

(** [shape] and [rank] always answer *)
Lemma shape_total (t : table) :
  shape t <> Raise OutOfFuel /\ rank t <> Raise OutOfFuel.
Proof.
  pose proof (shape_fuel_total (tsize t) t (le_n _)) as H.
  split; [exact H|]. unfold rank, shape.
  destruct (shape_fuel (tsize t) t); simpl; [discriminate|congruence].
Qed.

Lemma mapM_total {A B : Type} (f : A -> result B) (l : list A) :
  (forall a, In a l -> f a <> Raise OutOfFuel) -> mapM f l <> Raise OutOfFuel.
Proof.
  induction l as [|a l IH]; simpl; intros H; [discriminate|].
  pose proof (H a (or_introl eq_refl)) as Ha.
  destruct (f a) as [b|e]; simpl; [|congruence].
  assert (mapM f l <> Raise OutOfFuel) as Hl by (apply IH; intros; apply H; now right).
  destruct (mapM f l); simpl; [discriminate|congruence].
Qed.

Section FlattenTotal.
Variable py_str : value -> result string.
Hypothesis py_str_total : forall v, py_str v <> Raise OutOfFuel.

Section LoopTotal.
Variable item : value -> result value.
Variable row : Row.
Hypothesis item_total :
  forall r, small_item (dsize row) r -> item r <> Raise OutOfFuel.

Lemma asdict_value_total (v : value) :
  vsize v <= S (dsize row) ->
  asdict_value py_str item v <> Raise OutOfFuel.
Proof.
  pose proof (py_str_total v) as Hp.
  destruct v; simpl; try discriminate;
    try (intros _; destruct (py_str _); simpl; [discriminate|congruence]).
  intros Hv. destruct (shape_total t) as [_ Hr].
  destruct (rank t) as [rk|e]; simpl; [|congruence].
  destruct (Nat.eqb rk 0); [discriminate|].
  assert (mapM item (Table_iter t) <> Raise OutOfFuel) as Hm.
  { apply mapM_total. intros r Hin. apply item_total.
    apply Table_iter_small in Hin.
    apply small_item_le with (b := tsize t); [lia|exact Hin]. }
  destruct (mapM item (Table_iter t)); simpl; [discriminate|congruence].
Qed.

Lemma asdict_step_total named_only c is_current d :
  asdict_step py_str item row named_only c is_current d <> Raise OutOfFuel.
Proof.
  unfold asdict_step.
  destruct (asdict_key named_only c is_current); [|discriminate].
  pose proof (get_value_total c (VDict row)) as Hg.
  destruct (get_value c (VDict row)) as [v|e] eqn:Ev; simpl; [|congruence].
  apply get_value_small in Ev. rewrite vsize_VDict in Ev.
  destruct (is_None v); [discriminate|].
  pose proof (asdict_value_total v Ev) as Hv.
  destruct (asdict_value py_str item v); simpl; [discriminate|congruence].
Qed.

Lemma asdict_loop_total named_only cs : forall d,
  asdict_loop py_str item row named_only cs d <> Raise OutOfFuel.
Proof.
  induction cs as [|c cs IH]; simpl; intros d; [discriminate|].
  pose proof (asdict_step_total named_only c (is_nil cs) d) as Hs.
  destruct (asdict_step py_str item row named_only c (is_nil cs) d); simpl;
    [apply IH|congruence].
Qed.
End LoopTotal.

Lemma item_asdict_of_total la ta bound :
  (forall lr, dsize (_row lr) < bound -> la lr <> Raise OutOfFuel) ->
  (forall t, tsize t < bound -> ta t <> Raise OutOfFuel) ->
  forall r, small_item bound r -> item_asdict_of la ta r <> Raise OutOfFuel.
Proof.
  intros Hla Hta r Hr. destruct r; simpl in *; try discriminate.
  - now apply Hta.
  - specialize (Hla lr Hr). destruct (la lr); simpl; [discriminate|congruence].
Qed.

Lemma asdict_fuel_total (n : nat) :
  (forall named_only lr, dsize (_row lr) < n ->
     LazyRow_asdict_fuel py_str n named_only lr <> Raise OutOfFuel)
  /\ (forall t, tsize t < n -> Table_asdict_fuel py_str n t <> Raise OutOfFuel).
Proof.
  induction n as [|n [IHl IHt]]; [split; intros; lia|].
  split.
  - intros named_only lr Hn. simpl. apply asdict_loop_total.
    apply item_asdict_of_total; intros; [apply IHl|apply IHt]; lia.
  - intros t Hn. simpl.
    destruct (negb (is_None (scalar t))); [discriminate|].
    match goal with |- context [mapM ?f ?l] =>
      assert (mapM f l <> Raise OutOfFuel) as Hm end.
    { apply mapM_total. intros r Hr. apply Table_iter_small in Hr.
      apply item_asdict_of_total with (bound := tsize t); [| |exact Hr];
        intros; [apply IHl|apply IHt]; lia. }
    match goal with |- context [mapM ?f ?l] => destruct (mapM f l) end;
      simpl; [discriminate|congruence].
Qed.

(** the flattenings always answer, as long as [str] does *)
Lemma asdict_total :
  (forall named_only lr, LazyRow_asdict py_str named_only lr <> Raise OutOfFuel)
  /\ (forall t, Table_asdict py_str t <> Raise OutOfFuel).
Proof.
  split.
  - intros named_only lr. apply asdict_fuel_total. lia.
  - intros t. apply asdict_fuel_total. lia.
Qed.
End FlattenTotal.

(** ** Row indexing *)

Lemma list_index_nonneg {A : Type} (l : list A) (k : Z) :
  (0 <= k)%Z -> list_index l k =
    match nth_error l (Z.to_nat k) with
    | Some a => Ok a
    | None => Raise IndexError
    end.
Proof.
  intros Hk. unfold list_index.
  destruct (Z.ltb_spec k 0); [lia|].
  destruct (Z.ltb_spec k 0); [lia|]. reflexivity.
Qed.

(** C9: [Table.__getitem__] raises IndexError at every position at or past
    the row count, and at a position [0 <= k < len(rows)] returns the LazyRow
    made of this table and its [k]-th row. *)
Theorem Table_getitem_bounds (t : table) (k : Z) :
  ((Z.of_nat (Table_len t) <= k)%Z -> Table_getitem t k = Raise IndexError)
  /\ ((0 <= k < Z.of_nat (Table_len t))%Z ->
      exists r, nth_error (rows t) (Z.to_nat k) = Some r
                /\ Table_getitem t k = Ok (mkLazyRow t r)
                /\ _table (mkLazyRow t r) = t).
Proof.
  unfold Table_getitem, Table_len. split.
  - intros Hk. destruct (Z.geb_spec k (Z.of_nat (List.length (rows t)))); [reflexivity|lia].
  - intros [H0 Hk].
    destruct (Z.geb_spec k (Z.of_nat (List.length (rows t)))); [lia|].
    rewrite list_index_nonneg by exact H0.
    destruct (nth_error (rows t) (Z.to_nat k)) as [r|] eqn:E.
    + exists r. auto.
    + apply nth_error_None in E. lia.
Qed.

Lemma Table_getitem_bounds_witness :
  Table_getitem ex_flat 2 = Raise IndexError
  /\ exists r, nth_error (rows ex_flat) (Z.to_nat 1) = Some r
               /\ Table_getitem ex_flat 1 = Ok (mkLazyRow ex_flat r)
               /\ _table (mkLazyRow ex_flat r) = ex_flat.
Proof.
  split.
  - apply (proj1 (Table_getitem_bounds ex_flat 2)). simpl. lia.
  - apply (proj2 (Table_getitem_bounds ex_flat 1)). simpl. lia.
Defined.

(** ** SubColumn *)

(** C6, as the code has it: [SubColumn.get_value] subscripts the row with its
    own key, so a row without that key makes it raise KeyError for the key;
    when the key is there, the result is the origin column's [get_value] on
    the value stored under it. *)
Theorem SubColumn_get_value_spec (n k : string) (origcol : column) (row : Row) :
  (dict_lookup row k = None ->
   get_value (SubColumn n k origcol) (VDict row) = Raise (KeyError k))
  /\ (forall sub, dict_lookup row k = Some sub ->
      get_value (SubColumn n k origcol) (VDict row) = get_value origcol sub).
Proof.
  rewrite get_value_eq. simpl. split.
  - intros ->. reflexivity.
  - intros sub ->. reflexivity.
Qed.

Lemma SubColumn_get_value_spec_witness :
  get_value ex_subcol (VDict [("a", VInt 1)]) = Raise (KeyError "sub")
  /\ get_value ex_subcol (VDict [("sub", VDict [("y", VInt 7)])])
     = get_value (Column "y" (KStr "y")) (VDict [("y", VInt 7)]).
Proof.
  split.
  - apply (proj1 (SubColumn_get_value_spec "y" "sub" (Column "y" (KStr "y")) [("a", VInt 1)])).
    reflexivity.
  - apply (proj2 (SubColumn_get_value_spec "y" "sub" (Column "y" (KStr "y"))
                    [("sub", VDict [("y", VInt 7)])])).
    reflexivity.
Defined.

(** C6 as stated fails: on a row without the sub-row, [get_value] raises
    instead of returning None. *)
Lemma SubColumn_absent_raises :
  dict_lookup [("a", VInt 1)] "sub" = None
  /\ get_value ex_subcol (VDict [("a", VInt 1)]) = Raise (KeyError "sub")
  /\ get_value ex_subcol (VDict [("a", VInt 1)]) <> Ok VNone.
Proof. repeat split. discriminate. Qed.

(** ** Scalar tables *)

Lemma Table_init_scalar (s : value) (p : option table) :
  is_sequence s = false -> Table_init s p = Ok (mkTable [] [] p s).
Proof. destruct s; simpl; intros H; try reflexivity; discriminate. Qed.

Lemma scalar_table_shape (t : table) :
  is_None (scalar t) = false -> shape t = Ok [] /\ rank t = Ok 0.
Proof.
  intros H. unfold rank. rewrite shape_eq, H. simpl. auto.
Qed.

Section ScalarFlatten.
Variable py_str : value -> result string.

(** C4, as the code has it: a table constructed from a value [s] that is
    neither a list, a tuple nor None is a scalar table: its shape is the
    empty list, its rank 0, and [_asdict] returns [s] itself. *)
Theorem scalar_table_rank0 (s : value) (p : option table) :
  is_sequence s = false -> is_None s = false ->
  exists t, Table_init s p = Ok t
            /\ scalar t = s
            /\ shape t = Ok []
            /\ rank t = Ok 0
            /\ Table_asdict py_str t = Ok s.
Proof.
  intros Hseq Hnone. exists (mkTable [] [] p s).
  split; [now apply Table_init_scalar|].
  split; [reflexivity|].
  destruct (scalar_table_shape (mkTable [] [] p s) Hnone) as [Hs Hr].
  repeat split; auto.
  rewrite Table_asdict_eq. simpl. rewrite Hnone. reflexivity.
Qed.
End ScalarFlatten.

Lemma scalar_table_rank0_witness :
  exists t, Table_init (VInt 5) None = Ok t
            /\ scalar t = VInt 5
            /\ shape t = Ok []
            /\ rank t = Ok 0
            /\ Table_asdict ex_str t = Ok (VInt 5).
Proof. apply (scalar_table_rank0 ex_str (VInt 5) None); reflexivity. Defined.

(** C4 as stated fails at None: [Table(None)] stores [scalar = None], which
    every method reads as "no scalar", so the table is an empty table of
    rank 1 whose flattening is the empty list. *)
Lemma scalar_None_is_empty_table :
  is_sequence VNone = false
  /\ Table_init VNone None = Ok (mkTable [] [] None VNone)
  /\ shape (mkTable [] [] None VNone) = Ok [0]
  /\ rank (mkTable [] [] None VNone) = Ok 1
  /\ Table_asdict ex_str (mkTable [] [] None VNone) = Ok (VList [])
  /\ shape (mkTable [] [] None VNone) <> Ok []
  /\ Table_asdict ex_str (mkTable [] [] None VNone) <> Ok VNone.
Proof. repeat split; discriminate. Qed.

(** ** Shape of nested tables *)

(** C5: when the current column's value on the first row is a table of
    shape [S], the shape is the row count followed by [S] and the rank is
    its length; no other column and no other cell enters the result, so any
    table with the same row count and the same nested table under its own
    current column (whatever its other columns hold) has the same shape. *)
Theorem shape_nested (t t' : table) (row0 : Row) (rs : list Row)
        (cs : list column) (c : column) (S' : list nat) :
  is_None (scalar t) = true ->
  rows t = row0 :: rs ->
  columns t = cs ++ [c] ->
  get_value c (VDict row0) = Ok (VTable t') ->
  shape t' = Ok S' ->
  shape t = Ok (Table_len t :: S')
  /\ rank t = Ok (List.length (Table_len t :: S'))
  /\ forall u row0' rs' cs' c',
      is_None (scalar u) = true ->
      rows u = row0' :: rs' -> Table_len u = Table_len t ->
      columns u = cs' ++ [c'] ->
      get_value c' (VDict row0') = Ok (VTable t') ->
      shape u = shape t.
Proof.
  intros Hs Hr Hc Hv HS.
  assert (forall u row0' rs' cs' c',
             is_None (scalar u) = true ->
             rows u = row0' :: rs' -> columns u = cs' ++ [c'] ->
             get_value c' (VDict row0') = Ok (VTable t') ->
             shape u = Ok (Table_len u :: S')) as Hgen.
  { intros u row0' rs' cs' c' Hs' Hr' Hc' Hv'.
    rewrite shape_eq, Hs'. unfold Table_len. simpl. rewrite Hr'.
    assert (current_col u = Ok c') as ->.
    { destruct u as [ur uc up us]. simpl in Hc'. subst uc. apply current_col_app. }
    rewrite Hc'. destruct cs'; simpl; rewrite Hv'; simpl; rewrite HS; reflexivity. }
  assert (shape t = Ok (Table_len t :: S')) as Ht by (eapply Hgen; eauto).
  split; [exact Ht|]. split.
  - unfold rank. rewrite Ht. reflexivity.
  - intros u row0' rs' cs' c' Hs' Hr' Hl Hc' Hv'.
    rewrite Ht, <- Hl. eapply Hgen; eauto.
Qed.

Lemma shape_nested_witness :
  shape ex_outer = Ok [1; 2] /\ rank ex_outer = Ok 2.
Proof.
  destruct (shape_nested ex_outer ex_inner2
              [("w", VTable ex_inner3); ("x", VTable ex_inner2)] []
              [Column "w" (KStr "w")] (Column "x" (KStr "x")) [2])
    as (H1 & H2 & _); try reflexivity.
  split; [exact H1|exact H2].
Defined.

(** ** Scope-chain lookup *)

Lemma find_none_iff (k : string) (t : table) :
  find (fun c => String.eqb (name c) k) (columns t) = None <-> no_column_named k t.
Proof.
  unfold no_column_named. split.
  - intros H c Hin Hn. apply (find_none _ _ H) in Hin.
    rewrite Hn, String.eqb_refl in Hin. discriminate.
  - intros H. induction (columns t) as [|c cs IH]; simpl; [reflexivity|].
    destruct (String.eqb_spec (name c) k) as [E|E].
    + exfalso. apply (H c); [now left|exact E].
    + apply IH. intros c' Hc'. apply H. now right.
Qed.

Lemma find_first (k : string) (t : table) (c : column) :
  first_column_named k t c ->
  find (fun c => String.eqb (name c) k) (columns t) = Some c.
Proof.
  intros (cs1 & cs2 & -> & Hn & Hcs1).
  induction cs1 as [|c1 cs1 IH]; simpl.
  - rewrite Hn, String.eqb_refl. reflexivity.
  - destruct (String.eqb_spec (name c1) k) as [E|E].
    + exfalso. apply (Hcs1 c1); [now left|exact E].
    + apply IH. intros c' Hc'. apply Hcs1. now right.
Qed.

Lemma get_column_named (t : table) (k : string) :
  k <> CURRENT_COLNAME ->
  get_column t k = Ok (find (fun c => String.eqb (name c) k) (columns t)).
Proof.
  intros Hk. unfold get_column.
  destruct (String.eqb_spec k CURRENT_COLNAME); [contradiction|reflexivity].
Qed.

Lemma LazyRow_getitem_miss (k : string) (lr : lazyrow) :
  k <> CURRENT_COLNAME -> no_column_named k (_table lr) ->
  LazyRow_getitem k lr =
    match parent_row lr with
    | VNone => Raise (KeyError k)
    | VLazyRow p => LazyRow_getitem k p
    | _ => Raise AttributeError
    end.
Proof.
  intros Hk Hno. rewrite LazyRow_getitem_eq, get_column_named by exact Hk.
  apply find_none_iff in Hno. rewrite Hno. reflexivity.
Qed.

Lemma LazyRow_getitem_hit (k : string) (lr : lazyrow) (c : column) :
  k <> CURRENT_COLNAME -> first_column_named k (_table lr) c ->
  LazyRow_getitem k lr = get_value c (VDict (_row lr)).
Proof.
  intros Hk Hc. rewrite LazyRow_getitem_eq, get_column_named by exact Hk.
  rewrite (find_first _ _ _ Hc). reflexivity.
Qed.

(** C1, as the code has it: for a field name other than the current-column
    alias ["_"], when the row's own table has no column of that name and the
    nearest LazyRow up the [__parent] links whose table has one is [a], with
    column [c], lookup returns [c]'s value on [a]'s row; when no table on the
    chain has such a column, lookup raises KeyError for the name. *)
Theorem scope_chain_lookup (k : string) (lr : lazyrow) :
  k <> CURRENT_COLNAME ->
  (forall a c, resolves_in_ancestor k lr a c ->
               LazyRow_getitem k lr = get_value c (VDict (_row a)))
  /\ (chain_without k lr -> LazyRow_getitem k lr = Raise (KeyError k)).
Proof.
  intros Hk. split.
  - intros a c H. induction H as [lr p c Hno Hp Hc | lr p a c Hno Hp _ IH].
    + rewrite (LazyRow_getitem_miss k lr Hk Hno), Hp.
      now apply LazyRow_getitem_hit.
    + rewrite (LazyRow_getitem_miss k lr Hk Hno), Hp. exact IH.
  - intros H. induction H as [lr Hno Hp | lr p Hno Hp _ IH].
    + rewrite (LazyRow_getitem_miss k lr Hk Hno), Hp. reflexivity.
    + rewrite (LazyRow_getitem_miss k lr Hk Hno), Hp. exact IH.
Qed.

Lemma ex_child_no_column (k : string) :
  k <> "c" -> no_column_named k ex_child.
Proof.
  intros Hk c [<-|[]]. simpl. congruence.
Qed.

Lemma scope_chain_lookup_witness :
  LazyRow_getitem "a" ex_child_lr = Ok (VInt 1)
  /\ LazyRow_getitem "zz" ex_child_lr = Raise (KeyError "zz").
Proof.
  split.
  - apply (proj1 (scope_chain_lookup "a" ex_child_lr ltac:(discriminate))
             ex_parent_lr (Column "a" (KStr "a"))).
    apply resolves_parent.
    + apply ex_child_no_column. discriminate.
    + reflexivity.
    + exists [], [Column "b" (KStr "b")]. repeat split. intros c' [].
  - apply (proj2 (scope_chain_lookup "zz" ex_child_lr ltac:(discriminate))).
    eapply chain_step.
    + apply ex_child_no_column. discriminate.
    + reflexivity.
    + apply chain_end; [|reflexivity].
      intros c [<-|[<-|[]]]; simpl; discriminate.
Defined.

(** C1 as stated fails at the alias ["_"]: no column is named ["_"] anywhere
    on the chain, yet lookup returns the last column's value. *)
Lemma alias_lookup_skips_chain :
  chain_without "_" ex_parent_lr
  /\ LazyRow_getitem "_" ex_parent_lr = Ok (VInt 2)
  /\ LazyRow_getitem "_" ex_parent_lr <> Raise (KeyError "_").
Proof.
  split; [|split; [reflexivity|discriminate]].
  apply chain_end; [|reflexivity].
  intros c [<-|[<-|[]]]; simpl; discriminate.
Qed.

(** ** The schema: unique column names *)

Lemma add_column_run (col : column) (t : table) :
  add_column col t =
    if startswith (name col) "__" then (Raise AssertionError, t)
    else
      match add_column_guard col t with
      | Raise e => (Raise e, t)
      | Ok _ =>
          if existsb (String.eqb (name col)) (colnames t) then (Ok tt, t)
          else (Ok tt, mkTable (rows t) (columns t ++ [col]) (parent t) (scalar t))
      end.
Proof.
  unfold add_column, add_column_guard, mbind, assert, self, lift, ret, raise, append_column.
  destruct t as [rs cs p s].
  destruct (startswith (name col) "__"); simpl; [reflexivity|].
  destruct rs as [|row0 rs]; simpl.
  - destruct (existsb _ _); reflexivity.
  - destruct (get_value col (VDict row0)) as [v|e]; simpl; [|reflexivity].
    destruct (is_UNWORKING v); simpl; [reflexivity|].
    destruct (existsb _ _); reflexivity.
Qed.

Lemma existsb_eqb_In (k : string) (l : list string) :
  existsb (String.eqb k) l = true <-> In k l.
Proof.
  rewrite existsb_exists. split.
  - intros (x & Hx & E). apply String.eqb_eq in E. now subst.
  - intros H. exists k. split; [exact H|apply String.eqb_refl].
Qed.

Lemma add_column_present (col : column) (t : table) :
  In (name col) (colnames t) -> snd (add_column col t) = t.
Proof.
  intros H. rewrite add_column_run.
  destruct (startswith (name col) "__"); [reflexivity|].
  destruct (add_column_guard col t); [|reflexivity].
  apply existsb_eqb_In in H. rewrite H. reflexivity.
Qed.

Lemma add_column_NoDup (col : column) (t : table) :
  NoDup (colnames t) -> NoDup (colnames (snd (add_column col t))).
Proof.
  intros H. rewrite add_column_run.
  destruct (startswith (name col) "__"); [exact H|].
  destruct (add_column_guard col t); [|exact H].
  destruct (existsb (String.eqb (name col)) (colnames t)) eqn:E; [exact H|].
  unfold colnames. simpl. rewrite map_app. simpl.
  apply NoDup_app; [exact H | repeat constructor; intros [] | ].
  intros x Hx [<-|[]].
  apply existsb_eqb_In in Hx. unfold colnames in E. congruence.
Qed.

Lemma for_each_inv {A : Type} (P : table -> Prop) (body : A -> M unit) (l : list A) :
  (forall x t, In x l -> P t -> P (snd (body x t))) ->
  forall t, P t -> P (snd (for_each l body t)).
Proof.
  induction l as [|x l IH]; simpl; intros Hb t Ht; [exact Ht|].
  unfold mbind. pose proof (Hb x t (or_introl eq_refl) Ht) as Hx.
  destruct (body x t) as [[[]|e] t1]; simpl in *; [|exact Hx].
  apply IH; [|exact Hx]. intros x' t' Hin. apply Hb. now right.
Qed.

Lemma add_new_columns_NoDup (row : Row) (t : table) :
  NoDup (colnames t) -> NoDup (colnames (snd (add_new_columns row t))).
Proof.
  intros H. unfold add_new_columns.
  apply (for_each_inv (fun t => NoDup (colnames t))); [|exact H].
  intros k t' _ H'. destruct (negb (startswith k "__")); [|exact H'].
  now apply add_column_NoDup.
Qed.

Lemma Table_init_NoDup (a : value) (p : option table) (t : table) :
  Table_init a p = Ok t -> NoDup (colnames t).
Proof.
  assert (forall items, Table_init (VList items) p = Ok t -> NoDup (colnames t)) as Hl.
  { intros items. unfold Table_init.
    pose proof (for_each_inv (fun t => NoDup (colnames t)) init_row items) as H.
    specialize (fun Hb => H Hb (mkTable [] [] p VNone)).
    destruct (for_each items init_row _) as [[u|e] t1]; [|discriminate].
    intros [= <-]. apply H; [|constructor].
    intros x t' _ Ht'. destruct x; try exact Ht'.
    unfold init_row, mbind, append_row. simpl. now apply add_new_columns_NoDup. }
  destruct a; try (intros [= <-]; constructor); apply Hl.
Qed.

Lemma Table_copy_NoDup (t t' : table) :
  Table_copy t = Ok t' -> NoDup (colnames t').
Proof.
  unfold Table_copy.
  pose proof (for_each_inv (fun t => NoDup (colnames t)) add_column (columns t)) as H.
  specialize (H (fun x t _ => add_column_NoDup x t) (mkTable [] [] None VNone)).
  destruct (for_each (columns t) add_column _) as [[u|e] t1]; [|discriminate].
  intros [= <-]. apply H. constructor.
Qed.

(** C3: adding a column whose name the table already has leaves the table
    as it was (so the column list and its length), and returns normally
    whenever the two assertions of [add_column] hold; column names stay
    pairwise distinct through [add_column] and [add_new_columns], and are so
    in every table that the constructor or [__copy__] returns. *)
Theorem column_names_unique :
  (forall col t, In (name col) (colnames t) ->
     snd (add_column col t) = t
     /\ List.length (columns (snd (add_column col t))) = List.length (columns t)
     /\ (startswith (name col) "__" = false -> add_column_guard col t = Ok tt ->
         add_column col t = (Ok tt, t)))
  /\ (forall col t, NoDup (colnames t) -> NoDup (colnames (snd (add_column col t))))
  /\ (forall row t, NoDup (colnames t) -> NoDup (colnames (snd (add_new_columns row t))))
  /\ (forall a p t, Table_init a p = Ok t -> NoDup (colnames t))
  /\ (forall t t', Table_copy t = Ok t' -> NoDup (colnames t')).
Proof.
  split; [|split; [|split; [|split]]].
  - intros col t H. rewrite (add_column_present col t H).
    split; [reflexivity|]. split; [reflexivity|].
    intros Hn Hg. rewrite add_column_run, Hn, Hg.
    apply existsb_eqb_In in H. rewrite H. reflexivity.
  - exact add_column_NoDup.
  - exact add_new_columns_NoDup.
  - exact Table_init_NoDup.
  - exact Table_copy_NoDup.
Qed.

Lemma column_names_unique_witness :
  snd (add_column (Column "a" (KStr "zz")) ex_flat) = ex_flat
  /\ add_column (Column "a" (KStr "zz")) ex_flat = (Ok tt, ex_flat)
  /\ NoDup (colnames (snd (add_column (Column "c" (KStr "c")) ex_flat))).
Proof.
  destruct column_names_unique as (H1 & H2 & _).
  destruct (H1 (Column "a" (KStr "zz")) ex_flat) as (Ha & _ & Hb).
  { simpl. auto. }
  split; [exact Ha|]. split.
  - apply Hb; reflexivity.
  - apply H2. simpl. repeat constructor; simpl; intuition discriminate.
Defined.

(** ** Construction from rows *)

Lemma filter_filter {A : Type} (p q : A -> bool) (l : list A) :
  filter p (filter q l) = filter (fun x => q x && p x) l.
Proof.
  induction l as [|x l IH]; simpl; [reflexivity|].
  destruct (q x); simpl; [destruct (p x)|]; now rewrite IH.
Qed.

Lemma first_seen_filter (p : string -> bool) (l : list string) :
  first_seen (filter p l) = filter p (first_seen l).
Proof.
  induction l as [|k l IH]; simpl; [reflexivity|].
  destruct (p k) eqn:E; simpl.
  - rewrite IH, !filter_filter. f_equal.
    apply filter_ext. intros x. apply andb_comm.
  - rewrite IH, filter_filter. apply filter_ext. intros x.
    destruct (String.eqb_spec x k) as [->|]; simpl; [now rewrite E|reflexivity].
Qed.

Lemma add_names_first_seen (ks acc : list string) :
  add_names acc ks
  = acc ++ first_seen (filter (fun k => negb (existsb (String.eqb k) acc)) ks).
Proof.
  unfold add_names. revert acc.
  induction ks as [|k ks IH]; intros acc; simpl; [now rewrite app_nil_r|].
  destruct (existsb (String.eqb k) acc) eqn:E; simpl; [apply IH|].
  rewrite IH, <- app_assoc. simpl. do 2 f_equal.
  rewrite <- first_seen_filter, filter_filter. f_equal.
  apply filter_ext. intros x. rewrite existsb_app. simpl.
  now rewrite orb_false_r, negb_orb.
Qed.

Lemma add_names_nil (ks : list string) : add_names [] ks = first_seen ks.
Proof.
  rewrite add_names_first_seen. simpl. f_equal.
  induction ks; simpl; congruence.
Qed.

Lemma first_seen_In (k : string) (l : list string) : In k (first_seen l) <-> In k l.
Proof.
  induction l as [|k' l IH]; simpl; [tauto|].
  rewrite filter_In, IH. destruct (String.eqb_spec k k') as [->|N].
  - tauto.
  - intuition congruence.
Qed.

Lemma first_seen_NoDup (l : list string) : NoDup (first_seen l).
Proof.
  induction l as [|k l IH]; simpl; constructor.
  - rewrite filter_In, String.eqb_refl. intros [_ H]. discriminate.
  - now apply NoDup_filter.
Qed.

Lemma add_column_field (k : string) (t : table) (row0 : Row) (rs : list Row) :
  rows t = row0 :: rs -> startswith k "__" = false ->
  add_column (Column_of_field k) t =
    if is_UNWORKING (dict_get row0 k) then (Raise AssertionError, t)
    else (Ok tt, mkTable (rows t)
                         (if existsb (String.eqb k) (colnames t) then columns t
                          else columns t ++ [Column_of_field k])
                         (parent t) (scalar t)).
Proof.
  intros Hr Hk. destruct t as [rs0 cs p s]. simpl in Hr. subst rs0.
  rewrite add_column_run. simpl. rewrite Hk.
  unfold add_column_guard. simpl.
  destruct (is_UNWORKING (dict_get row0 k)); [reflexivity|].
  destruct (existsb (String.eqb k) _); reflexivity.
Qed.

Lemma add_field_columns (ks : list string) (row0 : Row) : forall (t : table) (rs : list Row),
  rows t = row0 :: rs ->
  let out := for_each ks
               (fun k => if negb (startswith k "__")
                         then add_column (Column_of_field k) else ret tt) t in
  let names := filter (fun k => negb (startswith k "__")) ks in
  rows (snd out) = rows t
  /\ parent (snd out) = parent t
  /\ scalar (snd out) = scalar t
  /\ (fst out = Ok tt -> colnames (snd out) = add_names (colnames t) names)
  /\ ((forall k, In k names -> is_UNWORKING (dict_get row0 k) = false) ->
      fst out = Ok tt).
Proof.
  induction ks as [|k ks IH]; intros t rs Hr; simpl.
  - repeat split; reflexivity.
  - unfold mbind. destruct (startswith k "__") eqn:Ek; simpl.
    + apply (IH t rs Hr).
    + rewrite (add_column_field k t row0 rs Hr Ek).
      destruct (is_UNWORKING (dict_get row0 k)) eqn:Eu; simpl.
      * repeat split; try discriminate.
        intros H. specialize (H k (or_introl eq_refl)). congruence.
      * match goal with |- context [for_each ks ?b ?t1] =>
          specialize (IH t1 rs Hr) end.
        simpl in IH. destruct IH as (I1 & I2 & I3 & I4 & I5).
        repeat split; try assumption.
        -- intros H. rewrite (I4 H). unfold colnames, add_names. simpl.
           destruct (existsb (String.eqb k) (map name (columns t))); [reflexivity|].
           rewrite map_app. reflexivity.
        -- intros H. apply I5. intros k' Hk'. apply H. now right.
Qed.

Lemma for_each_cons {A : Type} (x : A) (l : list A) (body : A -> M unit) (t : table) :
  for_each (x :: l) body t =
    match body x t with
    | (Ok _, t') => for_each l body t'
    | (Raise e, t') => (Raise e, t')
    end.
Proof. reflexivity. Qed.

Lemma init_row_dict (d : Row) (t : table) :
  init_row (VDict d) t
  = add_new_columns d (mkTable (rows t ++ [d]) (columns t) (parent t) (scalar t)).
Proof. reflexivity. Qed.

Lemma init_row_lazy (lr : lazyrow) (t : table) :
  init_row (VLazyRow lr) t
  = (Ok tt, mkTable (rows t ++ [_row lr]) (columns t) (parent t) (scalar t)).
Proof. reflexivity. Qed.

Lemma add_new_columns_run (d row0 : Row) (t : table) (rs : list Row) :
  rows t = row0 :: rs ->
  let out := add_new_columns d t in
  rows (snd out) = rows t
  /\ (fst out = Ok tt -> colnames (snd out) = add_names (colnames t) (field_names (VDict d)))
  /\ ((forall k, In k (field_names (VDict d)) -> is_UNWORKING (dict_get row0 k) = false) ->
      fst out = Ok tt).
Proof.
  intros Hr. destruct (add_field_columns (dict_keys d) row0 t rs Hr) as (H1 & _ & _ & H4 & H5).
  repeat split; assumption.
Qed.

Lemma init_loop (items : list value) : forall (t : table),
  forallb is_row_input items = true ->
  let out := for_each items init_row t in
  (fst out = Ok tt ->
   rows (snd out) = rows t ++ map input_row items
   /\ colnames (snd out) = add_names (colnames t) (flat_map field_names items))
  /\ ((forall k, In k (flat_map field_names items) ->
         is_UNWORKING (dict_get (hd [] (rows t ++ map input_row items)) k) = false) ->
      fst out = Ok tt).
Proof.
  induction items as [|x items IH]; intros t Hall; cbv zeta.
  - simpl. rewrite app_nil_r. auto.
  - simpl in Hall. apply andb_true_iff in Hall as [Hx Hall].
    rewrite for_each_cons.
    change (flat_map field_names (x :: items))
      with (field_names x ++ flat_map field_names items).
    change (map input_row (x :: items)) with (input_row x :: map input_row items).
    assert (exists row0 rs, rows t ++ [input_row x] = row0 :: rs) as (row0 & rs & Er)
        by (destruct (rows t); simpl; eauto).
    assert (hd [] (rows t ++ input_row x :: map input_row items) = row0) as Hhd.
    { revert Er. destruct (rows t); simpl; intros [= <- _]; reflexivity. }
    rewrite Hhd.
    destruct x; try discriminate; simpl input_row in *.
    + (* a plain mapping *)
      rewrite init_row_dict.
      set (t1 := mkTable (rows t ++ [d]) (columns t) (parent t) (scalar t)).
      destruct (add_new_columns_run d row0 t1 rs Er) as (H1 & H4 & H5).
      cbv zeta in H1, H4, H5.
      destruct (add_new_columns d t1) as [[[]|e] t2] eqn:E2; simpl fst in *; simpl snd in *.
      * specialize (IH t2 Hall). cbv zeta in IH. destruct IH as [IHa IHb].
        rewrite H1 in IHa, IHb. simpl rows in IHa, IHb.
        split.
        -- intros Hok. destruct (IHa Hok) as [Ir Ic]. split.
           ++ rewrite Ir, <- app_assoc. reflexivity.
           ++ rewrite Ic, (H4 eq_refl). unfold add_names. now rewrite fold_left_app.
        -- intros Hu. apply IHb. intros k Hk.
           rewrite Er.
           change (hd [] ((row0 :: rs) ++ map input_row items)) with row0.
           apply Hu. apply in_or_app. now right.
      * split; [discriminate|]. intros Hu.
        apply H5. intros k Hk. apply Hu. apply in_or_app. now left.
    + (* a LazyRow *)
      rewrite init_row_lazy.
      set (t1 := mkTable (rows t ++ [_row lr]) (columns t) (parent t) (scalar t)).
      specialize (IH t1 Hall). cbv zeta in IH. destruct IH as [IHa IHb].
      simpl rows in IHa, IHb.
      split.
      * intros Hok. destruct (IHa Hok) as [Ir Ic]. split; [|exact Ic].
        rewrite Ir, <- app_assoc. reflexivity.
      * intros Hu. apply IHb. intros k Hk. rewrite Er.
        change (hd [] ((row0 :: rs) ++ map input_row items)) with row0.
        now apply Hu.
Qed.

(** C2: a table constructed from a list (or tuple) of [N] LazyRows and plain
    mappings has [N] rows, the inputs' underlying Rows in order, and its
    column names are the mappings' field names that do not start with ["__"],
    each where it is first seen; LazyRows add no name.  The constructor
    returns whenever the first row holds the UNWORKING sentinel under none of
    those names. *)
Theorem Table_init_rows_and_columns (items : list value) (p : option table) :
  forallb is_row_input items = true ->
  (forall t, Table_init (VList items) p = Ok t ->
     Table_len t = List.length items
     /\ rows t = map input_row items
     /\ colnames t = first_seen (flat_map field_names items))
  /\ ((forall k, In k (flat_map field_names items) ->
         is_UNWORKING (dict_get (hd [] (map input_row items)) k) = false) ->
      exists t, Table_init (VList items) p = Ok t)
  /\ Table_init (VTuple items) p = Table_init (VList items) p.
Proof.
  intros Hall.
  pose proof (init_loop items (mkTable [] [] p VNone) Hall) as H.
  cbv zeta in H. simpl rows in H. simpl colnames in H. destruct H as [Ha Hb].
  unfold Table_init at 1 2.
  split; [|split; [|reflexivity]].
  - intros t.
    destruct (for_each items init_row _) as [[[]|e] t1]; [|discriminate].
    intros [= <-]. destruct (Ha eq_refl) as [Hr Hc]. simpl in Hr, Hc.
    unfold Table_len. rewrite Hr, Hc, add_names_nil, length_map. auto.
  - intros Hu. specialize (Hb Hu).
    destruct (for_each items init_row _) as [[[]|e] t1]; [|discriminate].
    eauto.
Qed.

Lemma Table_init_rows_and_columns_witness :
  exists t, Table_init ex_mixed_rows None = Ok t
            /\ Table_len t = 3
            /\ colnames t = ["a"; "b"; "_h"].
Proof.
  destruct (Table_init_rows_and_columns
              [VDict [("a", VInt 1); ("b", VInt 2); ("__parent", VNone)];
               VLazyRow ex_child_lr;
               VDict [("b", VInt 3); ("_h", VInt 4); ("a", VInt 5)]] None eq_refl)
    as (Hprop & Hok & _).
  destruct Hok as [t Ht].
  { simpl. intros k [<-|[<-|[<-|[<-|[<-|[]]]]]]; reflexivity. }
  exists t. split; [exact Ht|].
  destruct (Hprop t Ht) as (Hl & _ & Hc). split; [exact Hl|exact Hc].
Defined.

(** ** Flattening a row *)

Lemma dict_lookup_set (d : Row) (k k' : string) (v : value) :
  dict_lookup (dict_set d k v) k' = if String.eqb k k' then Some v else dict_lookup d k'.
Proof.
  induction d as [|[k0 v0] d IH]; simpl.
  - reflexivity.
  - destruct (String.eqb_spec k0 k) as [->|N]; simpl.
    + destruct (String.eqb k k'); reflexivity.
    + rewrite IH. destruct (String.eqb_spec k0 k') as [->|N'].
      * destruct (String.eqb_spec k k'); [congruence|reflexivity].
      * reflexivity.
Qed.

Lemma dict_lookup_del (d : Row) (k k' : string) :
  dict_lookup (dict_del d k) k' = if String.eqb k k' then None else dict_lookup d k'.
Proof.
  unfold dict_del. induction d as [|[k0 v0] d IH]; simpl.
  - destruct (String.eqb k k'); reflexivity.
  - destruct (String.eqb_spec k0 k) as [->|N]; simpl.
    + rewrite IH. destruct (String.eqb k k'); reflexivity.
    + rewrite IH. destruct (String.eqb_spec k0 k') as [->|N'].
      * destruct (String.eqb_spec k k'); [congruence|reflexivity].
      * reflexivity.
Qed.

Lemma dict_lookup_put (d : Row) (k k' : string) (v : value) :
  dict_lookup (dict_put d k v) k' = if String.eqb k k' then Some v else dict_lookup d k'.
Proof.
  unfold dict_put. rewrite dict_lookup_set.
  destruct (String.eqb k k') eqn:E; [reflexivity|].
  destruct (dict_mem d k); [|reflexivity].
  rewrite dict_lookup_del, E. reflexivity.
Qed.

Lemma dict_lookup_None (d : Row) (k : string) :
  dict_lookup d k = None <-> ~ In k (dict_keys d).
Proof.
  unfold dict_keys. induction d as [|[k0 v0] d IH]; simpl; [tauto|].
  destruct (String.eqb_spec k0 k) as [->|N].
  - split; [discriminate|]. intros H. exfalso. auto.
  - rewrite IH. tauto.
Qed.

Lemma asdict_key_hidden_name (named_only : bool) (c : column) (b : bool) (k : string) :
  asdict_key named_only c b = Some k ->
  (hidden c = false /\ k = name c)
  \/ (hidden c = true /\ k = CURRENT_COLNAME /\ named_only = false /\ b = true).
Proof.
  unfold asdict_key. destruct (hidden c).
  - destruct named_only, b; simpl; try discriminate. intros [= <-]. auto.
  - intros [= <-]. auto.
Qed.

Lemma split_by_name (cs1 : list column) : forall cs1' c c' cs2 cs2',
  NoDup (map name (cs1 ++ c :: cs2)) ->
  cs1 ++ c :: cs2 = cs1' ++ c' :: cs2' -> name c = name c' ->
  cs1 = cs1' /\ c = c' /\ cs2 = cs2'.
Proof.
  induction cs1 as [|x cs1 IH]; intros cs1' c c' cs2 cs2' Hnd Heq Hn.
  - destruct cs1' as [|y cs1']; simpl in *.
    + injection Heq as -> ->. auto.
    + injection Heq as -> ->. inversion Hnd as [|? ? Hnot _]. exfalso. apply Hnot.
      rewrite map_app. simpl. apply in_or_app. right. left. now symmetry.
  - destruct cs1' as [|y cs1']; simpl in *.
    + injection Heq as <- <-. inversion Hnd as [|? ? Hnot _]. exfalso. apply Hnot.
      rewrite map_app. simpl. apply in_or_app. right. now left.
    + injection Heq as -> Heq. inversion Hnd as [|? ? _ Hnd'].
      destruct (IH _ _ _ _ _ Hnd' Heq Hn) as (-> & -> & ->). auto.
Qed.

Lemma key_position_unique (named_only : bool) (cs1 cs1' cs2 cs2' : list column)
      (c c' : column) (k : string) :
  NoDup (map name (cs1 ++ c :: cs2)) ->
  cs1 ++ c :: cs2 = cs1' ++ c' :: cs2' ->
  asdict_key named_only c (is_nil cs2) = Some k ->
  asdict_key named_only c' (is_nil cs2') = Some k ->
  cs1 = cs1' /\ c = c' /\ cs2 = cs2'.
Proof.
  intros Hnd Heq Hk Hk'.
  apply asdict_key_hidden_name in Hk, Hk'.
  destruct Hk as [[Hh ->]|(Hh & -> & _ & Hl)], Hk' as [[Hh' E]|(Hh' & E & _ & Hl')].
  - now apply split_by_name.
  - unfold hidden in Hh. rewrite E in Hh. discriminate.
  - unfold hidden in Hh'. rewrite <- E in Hh'. discriminate.
  - destruct cs2; [|discriminate]. destruct cs2'; [|discriminate].
    apply app_inj_tail in Heq as [-> ->]. auto.
Qed.

Section RowFlattenFacts.
Variable py_str : value -> result string.
Variable item : value -> result value.
Variable row : Row.
Variable named_only : bool.

(** a key that no column of [cs] puts is the same before and after the loop *)
Lemma asdict_loop_frame (k : string) (cs : list column) : forall d d',
  asdict_loop py_str item row named_only cs d = Ok d' ->
  (forall cs1 c cs2 v, cs = cs1 ++ c :: cs2 ->
     asdict_key named_only c (is_nil cs2) = Some k ->
     get_value c (VDict row) = Ok v -> is_None v = true) ->
  dict_lookup d' k = dict_lookup d k.
Proof.
  induction cs as [|c cs IH]; simpl; intros d d' Hrun Hno.
  - now injection Hrun as <-.
  - destruct (asdict_step py_str item row named_only c (is_nil cs) d) as [d1|e] eqn:Es;
      simpl in Hrun; [|discriminate].
    rewrite (IH d1 d' Hrun).
    + unfold asdict_step in Es.
      destruct (asdict_key named_only c (is_nil cs)) as [k0|] eqn:Ek;
        [|now injection Es as <-].
      destruct (get_value c (VDict row)) as [v|e] eqn:Ev; simpl in Es; [|discriminate].
      destruct (is_None v) eqn:En; [now injection Es as <-|].
      destruct (asdict_value py_str item v) as [v'|e]; simpl in Es; [|discriminate].
      injection Es as <-. rewrite dict_lookup_put.
      destruct (String.eqb_spec k0 k) as [->|N]; [|reflexivity].
      specialize (Hno [] c cs v eq_refl Ek Ev). congruence.
    + intros cs1 c1 cs2 v Heq. apply (Hno (c :: cs1) c1 cs2 v). simpl. now f_equal.
Qed.

(** the run of the loop, cut at one column *)
Lemma asdict_loop_split (cs1 : list column) : forall c cs2 d d',
  asdict_loop py_str item row named_only (cs1 ++ c :: cs2) d = Ok d' ->
  exists d1 d2,
    asdict_step py_str item row named_only c (is_nil cs2) d1 = Ok d2
    /\ asdict_loop py_str item row named_only cs2 d2 = Ok d'.
Proof.
  induction cs1 as [|x cs1 IH]; simpl; intros c cs2 d d' Hrun.
  - destruct (asdict_step py_str item row named_only c (is_nil cs2) d) as [d2|e] eqn:Es;
      simpl in Hrun; [|discriminate].
    eauto.
  - destruct (asdict_step py_str item row named_only x _ d) as [d1|e];
      simpl in Hrun; [|discriminate].
    eauto.
Qed.

(** a column whose value is None leaves no entry under its key *)
Lemma asdict_loop_absent (cs1 cs2 : list column) (c : column) (k : string) (d' : Row) :
  NoDup (map name (cs1 ++ c :: cs2)) ->
  asdict_key named_only c (is_nil cs2) = Some k ->
  get_value c (VDict row) = Ok VNone ->
  asdict_loop py_str item row named_only (cs1 ++ c :: cs2) [] = Ok d' ->
  ~ In k (dict_keys d').
Proof.
  intros Hnd Hk Hv Hrun. apply dict_lookup_None.
  rewrite (asdict_loop_frame k _ _ _ Hrun); [reflexivity|].
  intros cs1' c' cs2' v Heq Hk' Hv'.
  destruct (key_position_unique named_only _ _ _ _ _ _ k Hnd Heq Hk Hk') as (_ & <- & _).
  rewrite Hv in Hv'. now injection Hv' as <-.
Qed.

(** a column whose value is an int, float or str leaves it under its key *)
Lemma asdict_loop_primitive (cs1 cs2 : list column) (c : column) (k : string)
      (v : value) (d' : Row) :
  NoDup (map name (cs1 ++ c :: cs2)) ->
  asdict_key named_only c (is_nil cs2) = Some k ->
  get_value c (VDict row) = Ok v -> is_primitive v = true ->
  asdict_loop py_str item row named_only (cs1 ++ c :: cs2) [] = Ok d' ->
  dict_lookup d' k = Some v.
Proof.
  intros Hnd Hk Hv Hp Hrun.
  destruct (asdict_loop_split _ _ _ _ _ Hrun) as (d1 & d2 & Hs & Hrest).
  rewrite (asdict_loop_frame k _ _ _ Hrest).
  - unfold asdict_step in Hs. rewrite Hk, Hv in Hs. simpl in Hs.
    destruct v; try discriminate; simpl in Hs; injection Hs as <-;
      rewrite dict_lookup_put, String.eqb_refl; reflexivity.
  - intros cs1' c' cs2' v' Heq Hk' Hv'. exfalso.
    assert (cs1 ++ c :: cs2 = (cs1 ++ c :: cs1') ++ c' :: cs2') as Heq'
        by (rewrite Heq, <- app_assoc; reflexivity).
    destruct (key_position_unique named_only _ _ _ _ _ _ k Hnd Heq' Hk) as (E & _ & _).
    + rewrite Heq in Hk. destruct cs1'; exact Hk'.
    + assert (List.length cs1 = List.length (cs1 ++ c :: cs1')) as El by now rewrite <- E.
      rewrite length_app in El. simpl in El. lia.
Qed.
End RowFlattenFacts.

Lemma reach_walk_path (d : Row) (pre : list string) (d' : Row) :
  reach d pre d' -> forall rest,
  walk_path LazyRow_getitem (VDict d) (pre ++ rest)
  = walk_path LazyRow_getitem (VDict d') rest.
Proof.
  induction 1 as [d | d k d1 pre d' Hk _ IH]; intros rest; [reflexivity|].
  simpl. unfold dict_get. rewrite Hk. simpl. apply IH.
Qed.

Lemma void_get_value (n : string) (key : colkey) (row : Row) :
  void_at key row -> get_value (Column n key) (VDict row) = Ok VNone.
Proof.
  intros H. rewrite get_value_eq.
  destruct H as [k d [Hk|Hk] | pre k post d d' Hr [Hk|Hk]].
  - simpl. unfold dict_get. now rewrite Hk.
  - simpl. unfold dict_get. now rewrite Hk.
  - rewrite (reach_walk_path _ _ _ Hr). simpl. unfold dict_get. now rewrite Hk.
  - rewrite (reach_walk_path _ _ _ Hr). simpl. unfold dict_get. now rewrite Hk.
Qed.

Section RowFlatten.
Variable py_str : value -> result string.

Lemma asdict_step_named_only item row c b b' d :
  asdict_step py_str item row true c b d = asdict_step py_str item row true c b' d.
Proof. unfold asdict_step, asdict_key. destruct (hidden c); reflexivity. Qed.

Lemma asdict_loop_named_only item row (cs : list column) : forall d,
  asdict_loop py_str item row true cs d
  = asdict_loop py_str item row true (filter (fun c => negb (hidden c)) cs) d.
Proof.
  induction cs as [|c cs IH]; intros d; simpl; [reflexivity|].
  destruct (hidden c) eqn:Eh; simpl.
  - unfold asdict_step at 1, asdict_key. rewrite Eh. simpl. apply IH.
  - rewrite (asdict_step_named_only item row c (is_nil (filter _ cs)) (is_nil cs)).
    destruct (asdict_step py_str item row true c (is_nil cs) d); simpl;
      [apply IH|reflexivity].
Qed.

(** C7: with [named_only] true the flattening is that of the table without
    its hidden columns, and neither the name of a hidden column nor the
    alias ["_"] is a key of it; with [named_only] false a hidden current
    (last) column whose value is present puts that value, converted as any
    cell value is, under the alias ["_"], and not under its own name. *)
Theorem hidden_columns_flatten (t : table) (r : Row) :
  LazyRow_asdict py_str true (mkLazyRow t r)
  = LazyRow_asdict py_str true (mkLazyRow (without_hidden t) r)
  /\ (forall d c, LazyRow_asdict py_str true (mkLazyRow t r) = Ok d ->
        In c (columns t) -> hidden c = true ->
        ~ In (name c) (dict_keys d) /\ ~ In CURRENT_COLNAME (dict_keys d))
  /\ (forall cs c v v' d,
        columns t = cs ++ [c] -> hidden c = true ->
        get_value c (VDict r) = Ok v -> is_None v = false ->
        asdict_value py_str (item_asdict py_str) v = Ok v' ->
        LazyRow_asdict py_str false (mkLazyRow t r) = Ok d ->
        dict_lookup d CURRENT_COLNAME = Some v'
        /\ (name c <> CURRENT_COLNAME -> ~ In (name c) (dict_keys d))).
Proof.
  split; [|split].
  - rewrite !LazyRow_asdict_eq. destruct t as [rs cs p s]. simpl.
    apply asdict_loop_named_only.
  - intros d c Hrun Hin Hh. rewrite LazyRow_asdict_eq in Hrun. simpl in Hrun.
    assert (forall k, startswith k "_" = true -> ~ In k (dict_keys d)) as Hkeys.
    { intros k Hk. apply dict_lookup_None.
      rewrite (asdict_loop_frame _ _ _ _ k _ _ _ Hrun); [reflexivity|].
      intros cs1 c1 cs2 v _ Hk1 _. exfalso.
      apply asdict_key_hidden_name in Hk1 as [[Hh1 ->]|(_ & _ & [=] & _)].
      unfold hidden in Hh1. congruence. }
    split; apply Hkeys; [exact Hh|reflexivity].
  - intros cs c v v' d Hcs Hh Hv Hn Hv' Hrun.
    rewrite LazyRow_asdict_eq in Hrun. simpl in Hrun. rewrite Hcs in Hrun.
    split.
    + destruct (asdict_loop_split _ _ _ _ _ _ _ _ _ Hrun) as (d1 & d2 & Hs & Hrest).
      simpl in Hrest. injection Hrest as <-.
      unfold asdict_step, asdict_key in Hs. rewrite Hh, Hv in Hs. simpl in Hs.
      rewrite Hn, Hv' in Hs. simpl in Hs. injection Hs as <-.
      rewrite dict_lookup_put, String.eqb_refl. reflexivity.
    + intros Hne. apply dict_lookup_None.
      rewrite (asdict_loop_frame _ _ _ _ (name c) _ _ _ Hrun); [reflexivity|].
      intros cs1 c1 cs2 v1 _ Hk1 _. exfalso.
      apply asdict_key_hidden_name in Hk1 as [[Hh1 E]|(_ & E & _)].
      * unfold hidden in Hh, Hh1. congruence.
      * contradiction.
Qed.

(** C8: in a table with distinct column names, a column that the
    flattening retains under key [k] (its name, or the alias for a hidden
    current column) leaves no key [k] in the output when its value for the
    row is None, and leaves its value under [k] when that value is an int,
    a float or a str, falsy or not. *)
Theorem absent_omitted_falsy_kept (named_only : bool) (t : table) (r : Row)
        (cs1 cs2 : list column) (c : column) (k : string) (d : Row) :
  NoDup (colnames t) ->
  columns t = cs1 ++ c :: cs2 ->
  asdict_key named_only c (is_nil cs2) = Some k ->
  LazyRow_asdict py_str named_only (mkLazyRow t r) = Ok d ->
  (get_value c (VDict r) = Ok VNone -> ~ In k (dict_keys d))
  /\ (forall v, get_value c (VDict r) = Ok v -> is_primitive v = true ->
                dict_lookup d k = Some v).
Proof.
  intros Hnd Hcs Hk Hrun. rewrite LazyRow_asdict_eq in Hrun. simpl in Hrun.
  unfold colnames in Hnd. rewrite Hcs in Hnd, Hrun. split.
  - intros Hv. eapply asdict_loop_absent; eauto.
  - intros v Hv Hp. eapply asdict_loop_primitive; eauto.
Qed.

(** C10: a Column whose key (a field, or a step of its path) is missing
    from the row or mapped to None has the value None in both cases, and
    in a table with distinct column names the flattening of the row then
    has no entry under the key it would give that column. *)
Theorem None_is_absent (n : string) (key : colkey) (row : Row) :
  void_at key row ->
  get_value (Column n key) (VDict row) = Ok VNone
  /\ forall named_only t cs1 cs2 k d,
      NoDup (colnames t) ->
      columns t = cs1 ++ Column n key :: cs2 ->
      asdict_key named_only (Column n key) (is_nil cs2) = Some k ->
      LazyRow_asdict py_str named_only (mkLazyRow t row) = Ok d ->
      ~ In k (dict_keys d).
Proof.
  intros Hvoid. pose proof (void_get_value n key row Hvoid) as Hv.
  split; [exact Hv|].
  intros named_only t cs1 cs2 k d Hnd Hcs Hk Hrun.
  rewrite LazyRow_asdict_eq in Hrun. simpl in Hrun.
  unfold colnames in Hnd. rewrite Hcs in Hnd, Hrun.
  eapply asdict_loop_absent; eauto.
Qed.
End RowFlatten.

Lemma ex_hidden_NoDup : NoDup (colnames ex_hidden).
Proof. repeat constructor; simpl; intuition discriminate. Qed.

Lemma hidden_columns_flatten_witness :
  (LazyRow_asdict ex_str true ex_hidden_lr = Ok ex_hidden_named
   /\ ~ In "_tmp" (dict_keys ex_hidden_named) /\ ~ In "_" (dict_keys ex_hidden_named))
  /\ (LazyRow_asdict ex_str false ex_hidden_lr = Ok ex_hidden_out
      /\ dict_lookup ex_hidden_out "_" = Some (VInt 7)
      /\ ~ In "_tmp" (dict_keys ex_hidden_out)).
Proof.
  destruct (hidden_columns_flatten ex_str ex_hidden ex_hidden_row) as (_ & H2 & H3).
  assert (LazyRow_asdict ex_str true ex_hidden_lr = Ok ex_hidden_named) as Hn
      by reflexivity.
  assert (LazyRow_asdict ex_str false ex_hidden_lr = Ok ex_hidden_out) as Hd
      by reflexivity.
  split; (split; [assumption|]).
  - apply (H2 ex_hidden_named (Column "_tmp" (KStr "_tmp")) Hn).
    + simpl. tauto.
    + reflexivity.
  - pose (d := ex_hidden_out).
    destruct (H3 [Column "a" (KStr "a"); Column "b" (KStr "b"); Column "c" (KStr "c");
                  Column "d" (KPath ["n"; "x"; "y"]); Column "e" (KStr "zz")]
                 (Column "_tmp" (KStr "_tmp")) (VInt 7) (VInt 7) d
                 eq_refl eq_refl eq_refl eq_refl eq_refl Hd) as [Ha Hb].
    split; [exact Ha|]. apply Hb. discriminate.
Defined.

Lemma absent_omitted_falsy_kept_witness :
  LazyRow_asdict ex_str false ex_hidden_lr = Ok ex_hidden_out
  /\ ~ In "c" (dict_keys ex_hidden_out)
  /\ dict_lookup ex_hidden_out "a" = Some (VInt 0)
  /\ dict_lookup ex_hidden_out "b" = Some (VStr "").
Proof.
  assert (LazyRow_asdict ex_str false ex_hidden_lr = Ok ex_hidden_out) as Hd
      by reflexivity.
  split; [exact Hd|]. pose (d := ex_hidden_out).
  destruct (absent_omitted_falsy_kept ex_str false ex_hidden ex_hidden_row
              [Column "a" (KStr "a"); Column "b" (KStr "b")]
              [Column "d" (KPath ["n"; "x"; "y"]); Column "e" (KStr "zz");
               Column "_tmp" (KStr "_tmp")]
              (Column "c" (KStr "c")) "c" d ex_hidden_NoDup eq_refl eq_refl Hd)
    as [Hc _].
  destruct (absent_omitted_falsy_kept ex_str false ex_hidden ex_hidden_row
              []
              [Column "b" (KStr "b"); Column "c" (KStr "c");
               Column "d" (KPath ["n"; "x"; "y"]); Column "e" (KStr "zz");
               Column "_tmp" (KStr "_tmp")]
              (Column "a" (KStr "a")) "a" d ex_hidden_NoDup eq_refl eq_refl Hd)
    as [_ Ha].
  destruct (absent_omitted_falsy_kept ex_str false ex_hidden ex_hidden_row
              [Column "a" (KStr "a")]
              [Column "c" (KStr "c");
               Column "d" (KPath ["n"; "x"; "y"]); Column "e" (KStr "zz");
               Column "_tmp" (KStr "_tmp")]
              (Column "b" (KStr "b")) "b" d ex_hidden_NoDup eq_refl eq_refl Hd)
    as [_ Hb].
  split; [apply Hc; reflexivity|]. split; [apply Ha|apply Hb]; reflexivity.
Defined.

Lemma None_is_absent_witness :
  get_value (Column "c" (KStr "c")) (VDict ex_hidden_row) = Ok VNone
  /\ get_value (Column "e" (KStr "zz")) (VDict ex_hidden_row) = Ok VNone
  /\ get_value (Column "d" (KPath ["n"; "x"; "y"])) (VDict ex_hidden_row) = Ok VNone
  /\ LazyRow_asdict ex_str false ex_hidden_lr = Ok ex_hidden_out
  /\ ~ In "c" (dict_keys ex_hidden_out)
  /\ ~ In "e" (dict_keys ex_hidden_out)
  /\ ~ In "d" (dict_keys ex_hidden_out).
Proof.
  assert (LazyRow_asdict ex_str false ex_hidden_lr = Ok ex_hidden_out) as Hd
      by reflexivity.
  pose (d := ex_hidden_out).
  assert (void_at (KStr "c") ex_hidden_row) as Vc
      by (apply void_field; right; reflexivity).
  assert (void_at (KStr "zz") ex_hidden_row) as Ve
      by (apply void_field; left; reflexivity).
  assert (void_at (KPath ["n"; "x"; "y"]) ex_hidden_row) as Vd.
  { apply (void_path ["n"] "x" ["y"] ex_hidden_row [("x", VNone)]).
    - eapply reach_step; [reflexivity|apply reach_here].
    - right. reflexivity. }
  destruct (None_is_absent ex_str "c" (KStr "c") ex_hidden_row Vc) as [Gc Fc].
  destruct (None_is_absent ex_str "e" (KStr "zz") ex_hidden_row Ve) as [Ge Fe].
  destruct (None_is_absent ex_str "d" (KPath ["n"; "x"; "y"]) ex_hidden_row Vd) as [Gd Fd].
  split; [exact Gc|]. split; [exact Ge|]. split; [exact Gd|].
  split; [exact Hd|]. split; [|split].
  - apply (Fc false ex_hidden
              [Column "a" (KStr "a"); Column "b" (KStr "b")]
              [Column "d" (KPath ["n"; "x"; "y"]); Column "e" (KStr "zz");
               Column "_tmp" (KStr "_tmp")] "c" d ex_hidden_NoDup eq_refl eq_refl Hd).
  - apply (Fe false ex_hidden
              [Column "a" (KStr "a"); Column "b" (KStr "b"); Column "c" (KStr "c");
               Column "d" (KPath ["n"; "x"; "y"])]
              [Column "_tmp" (KStr "_tmp")] "e" d ex_hidden_NoDup eq_refl eq_refl Hd).
  - apply (Fd false ex_hidden
              [Column "a" (KStr "a"); Column "b" (KStr "b"); Column "c" (KStr "c")]
              [Column "e" (KStr "zz"); Column "_tmp" (KStr "_tmp")] "d" d
              ex_hidden_NoDup eq_refl eq_refl Hd).
Defined.

(** ** The concrete scenarios *)

Example scenario_flat :
  Table_init ex_flat_rows None = Ok ex_flat
  /\ colnames ex_flat = ["a"; "b"]
  /\ Table_len ex_flat = 2
  /\ Table_getitem ex_flat 0 = Ok ex_parent_lr
  /\ LazyRow_getitem "a" ex_parent_lr = Ok (VInt 1).
Proof. repeat split. Qed.

Example scenario_scalar :
  Table_init (VInt 5) None = Ok (mkTable [] [] None (VInt 5))
  /\ rank (mkTable [] [] None (VInt 5)) = Ok 0
  /\ shape (mkTable [] [] None (VInt 5)) = Ok []
  /\ Table_asdict ex_str (mkTable [] [] None (VInt 5)) = Ok (VInt 5).
Proof. repeat split. Qed.

Example scenario_nested :
  Table_init (VList [VDict [("x", VTable ex_inner2)]]) None = Ok ex_nested
  /\ shape ex_nested = Ok [1; 2]
  /\ LazyRow_asdict ex_str false (mkLazyRow ex_nested [("x", VTable ex_inner2)])
     = Ok [("x", VList [VDict [("y", VInt 1)]; VDict [("y", VInt 2)]])].
Proof. repeat split. Qed.

Example scenario_scope :
  LazyRow_getitem "a" ex_child_lr = Ok (VInt 1)
  /\ LazyRow_getitem "a" ex_orphan_lr = Raise (KeyError "a").
Proof. split; reflexivity. Qed.

(** * Further properties of the module *)

(** ** Indexing, iteration and truth value of a table *)

(** X1: [Table.__getitem__] at a negative position counts from the end:
    for [-len(rows) <= k < 0] it returns the LazyRow of this table and the
    row at [k + len(rows)]; below [-len(rows)] it raises IndexError. *)
Theorem Table_getitem_negative (t : table) (k : Z) :
  (k < 0)%Z ->
  ((- Z.of_nat (Table_len t) <= k)%Z ->
   exists r, nth_error (rows t) (Z.to_nat (k + Z.of_nat (Table_len t))) = Some r
             /\ Table_getitem t k = Ok (mkLazyRow t r))
  /\ ((k < - Z.of_nat (Table_len t))%Z -> Table_getitem t k = Raise IndexError).
Proof.
  intros Hk. unfold Table_getitem, Table_len, list_index.
  destruct (Z.geb_spec k (Z.of_nat (List.length (rows t)))); [lia|].
  destruct (Z.ltb_spec k 0); [|lia].
  split; intros Hb.
  - destruct (Z.ltb_spec (k + Z.of_nat (List.length (rows t))) 0); [lia|].
    destruct (nth_error (rows t) (Z.to_nat (k + Z.of_nat (List.length (rows t)))))
      as [r|] eqn:E.
    + exists r. auto.
    + apply nth_error_None in E. lia.
  - destruct (Z.ltb_spec (k + Z.of_nat (List.length (rows t))) 0); [reflexivity|lia].
Qed.

Lemma Table_getitem_negative_witness :
  Table_getitem ex_flat (-1) = Ok (mkLazyRow ex_flat [("a", VInt 3); ("b", VInt 4)])
  /\ Table_getitem ex_flat (-3) = Raise IndexError.
Proof.
  destruct (Table_getitem_negative ex_flat (-1) ltac:(lia)) as [H1 _].
  destruct (Table_getitem_negative ex_flat (-3) ltac:(lia)) as [_ H2].
  split.
  - assert (- Z.of_nat (Table_len ex_flat) <= -1)%Z as Hb
        by (unfold Table_len; simpl; lia).
    destruct (H1 Hb) as (r & Hr & Hg).
    simpl in Hr. injection Hr as <-. exact Hg.
  - apply H2. unfold Table_len. simpl. lia.
Defined.

(** X2: iterating a table without scalar yields one LazyRow per row, in
    order, and the [i]-th is what indexing at [i] returns; iterating a scalar
    table yields the scalar alone. *)
Theorem Table_iter_getitem (t : table) :
  (is_None (scalar t) = true ->
   List.length (Table_iter t) = Table_len t
   /\ forall i, i < Table_len t ->
        exists lr, nth_error (Table_iter t) i = Some (VLazyRow lr)
                   /\ Table_getitem t (Z.of_nat i) = Ok lr)
  /\ (is_None (scalar t) = false -> Table_iter t = [scalar t]).
Proof.
  unfold Table_iter, Table_len. split; intros Hs; rewrite Hs; simpl; [|reflexivity].
  split; [apply length_map|].
  intros i Hi.
  destruct (nth_error (rows t) i) as [r|] eqn:E;
    [|apply nth_error_None in E; lia].
  exists (mkLazyRow t r). split.
  - rewrite nth_error_map, E. reflexivity.
  - unfold Table_getitem.
    destruct (Z.geb_spec (Z.of_nat i) (Z.of_nat (List.length (rows t)))); [lia|].
    rewrite list_index_nonneg by lia. rewrite Nat2Z.id, E. reflexivity.
Qed.

Lemma Table_iter_getitem_witness :
  List.length (Table_iter ex_flat) = 2
  /\ (exists lr, nth_error (Table_iter ex_flat) 1 = Some (VLazyRow lr)
                 /\ Table_getitem ex_flat 1 = Ok lr)
  /\ Table_iter (mkTable [] [] None (VInt 5)) = [VInt 5].
Proof.
  destruct (Table_iter_getitem ex_flat) as [[H1 H2] _]; [reflexivity|].
  destruct (Table_iter_getitem (mkTable [] [] None (VInt 5))) as [_ H3].
  split; [exact H1|]. split.
  - apply (H2 1). unfold Table_len. simpl. lia.
  - apply H3. reflexivity.
Defined.

(** ** The constructor and the schema *)

Lemma for_each_app {A : Type} (l1 l2 : list A) (body : A -> M unit) : forall t,
  for_each (l1 ++ l2) body t =
    match for_each l1 body t with
    | (Ok _, t') => for_each l2 body t'
    | (Raise e, t') => (Raise e, t')
    end.
Proof.
  induction l1 as [|x l1 IH]; intros t; [reflexivity|].
  simpl app. rewrite !for_each_cons.
  destruct (body x t) as [[[]|e] t1]; [apply IH|reflexivity].
Qed.

Lemma init_loop_inputs (items : list value) : forall t t',
  for_each items init_row t = (Ok tt, t') -> forallb is_row_input items = true.
Proof.
  induction items as [|x items IH]; intros t t' H; [reflexivity|].
  rewrite for_each_cons in H.
  destruct (init_row x t) as [[[]|e] t1] eqn:E; [|discriminate].
  simpl. rewrite (IH _ _ H), andb_true_r.
  destruct x; try reflexivity; discriminate.
Qed.

Lemma init_row_frame (x : value) (t : table) :
  parent (snd (init_row x t)) = parent t /\ scalar (snd (init_row x t)) = scalar t.
Proof.
  destruct x; try (split; reflexivity).
  rewrite init_row_dict.
  destruct (add_field_columns (dict_keys d) (hd [] (rows t ++ [d]))
              (mkTable (rows t ++ [d]) (columns t) (parent t) (scalar t))
              (tl (rows t ++ [d]))) as (_ & Hp & Hs & _).
  { simpl. destruct (rows t); reflexivity. }
  split; [exact Hp|exact Hs].
Qed.

(** what the constructor returns for a sequence *)
Lemma Table_init_seq_inv (items : list value) (p : option table) (t : table) :
  Table_init (VList items) p = Ok t ->
  forallb is_row_input items = true
  /\ rows t = map input_row items
  /\ colnames t = first_seen (flat_map field_names items)
  /\ parent t = p /\ scalar t = VNone.
Proof.
  unfold Table_init.
  destruct (for_each items init_row (mkTable [] [] p VNone)) as [[[]|e] t1] eqn:E;
    [|discriminate].
  intros [= <-]. pose proof (init_loop_inputs _ _ _ E) as Hall.
  pose proof (init_loop items (mkTable [] [] p VNone) Hall) as H.
  cbv zeta in H. rewrite E in H. simpl in H. destruct H as [H _].
  destruct (H eq_refl) as [Hr Hc]. rewrite add_names_nil in Hc.
  assert (parent t1 = p /\ scalar t1 = VNone) as [Hp Hs].
  { pose proof (for_each_inv (fun t => parent t = p /\ scalar t = VNone) init_row items)
      as Hinv.
    simpl in Hinv. rewrite <- (f_equal snd E : snd _ = t1).
    apply Hinv; [|split; reflexivity].
    intros x t _ [H1 H2]. destruct (init_row_frame x t) as [F1 F2].
    rewrite F1, F2. auto. }
  repeat split; assumption.
Qed.

(** X3: the constructor never returns a table for a sequence holding
    anything but LazyRows and mappings: when the inputs before the first
    offending one go through (the first row holds UNWORKING under none of
    their field names), it raises TypeError. *)
Theorem Table_init_rejects_non_rows (items : list value) (p : option table) :
  (forall t, Table_init (VList items) p = Ok t -> forallb is_row_input items = true)
  /\ (forall pre x post,
        items = pre ++ x :: post ->
        forallb is_row_input pre = true -> is_row_input x = false ->
        (forall k, In k (flat_map field_names pre) ->
           is_UNWORKING (dict_get (hd [] (map input_row pre)) k) = false) ->
        Table_init (VList items) p = Raise TypeError).
Proof.
  split.
  - intros t H. now apply Table_init_seq_inv in H.
  - intros pre x post -> Hpre Hx Hu. unfold Table_init.
    rewrite for_each_app.
    pose proof (init_loop pre (mkTable [] [] p VNone) Hpre) as H.
    cbv zeta in H. destruct H as [_ H]. specialize (H Hu).
    destruct (for_each pre init_row (mkTable [] [] p VNone)) as [[[]|e] t1];
      [|discriminate].
    rewrite for_each_cons.
    destruct x; try discriminate; reflexivity.
Qed.

Lemma Table_init_rejects_non_rows_witness :
  Table_init (VList [VDict [("a", VInt 1)]; VInt 7; VDict [("b", VInt 2)]]) None
  = Raise TypeError.
Proof.
  apply (proj2 (Table_init_rejects_non_rows
                  [VDict [("a", VInt 1)]; VInt 7; VDict [("b", VInt 2)]] None)
               [VDict [("a", VInt 1)]] (VInt 7) [VDict [("b", VInt 2)]]);
    try reflexivity.
  simpl. intros k [<-|[]]. reflexivity.
Defined.

(** X4: a table is truthy exactly when it has rows: one built from a
    sequence is truthy iff the sequence is not empty, and one built from a
    scalar is falsy whatever the scalar is. *)
Theorem Table_bool_constructed (a : value) (p : option table) (t : table) :
  Table_init a p = Ok t ->
  (forall items, a = VList items \/ a = VTuple items ->
                 Table_bool t = negb (is_nil items))
  /\ (is_sequence a = false -> Table_bool t = false).
Proof.
  intros H. split.
  - intros items Ha.
    assert (Table_init (VList items) p = Ok t) as H'
        by (destruct Ha as [->| ->]; exact H).
    apply Table_init_seq_inv in H' as (_ & Hr & _).
    unfold Table_bool. rewrite Hr, length_map. destruct items; reflexivity.
  - intros Hs. rewrite (Table_init_scalar a p Hs) in H. now injection H as <-.
Qed.

Lemma Table_bool_constructed_witness :
  Table_bool ex_flat = true /\ Table_bool (mkTable [] [] None (VInt 5)) = false.
Proof.
  split.
  - apply (proj1 (Table_bool_constructed ex_flat_rows None ex_flat eq_refl)
                 [VDict [("a", VInt 1); ("b", VInt 2)];
                  VDict [("a", VInt 3); ("b", VInt 4)]]).
    left. reflexivity.
  - apply (proj2 (Table_bool_constructed (VInt 5) None _ eq_refl)). reflexivity.
Defined.

Lemma add_column_columns (col : column) (t : table) :
  columns (snd (add_column col t)) = columns t
  \/ (columns (snd (add_column col t)) = columns t ++ [col]
      /\ fst (add_column col t) = Ok tt
      /\ startswith (name col) "__" = false
      /\ ~ In (name col) (colnames t)).
Proof.
  rewrite add_column_run.
  destruct (startswith (name col) "__") eqn:En; [now left|].
  destruct (add_column_guard col t); [|now left].
  destruct (existsb (String.eqb (name col)) (colnames t)) eqn:E; [now left|].
  right. repeat split. intros Hin. apply existsb_eqb_In in Hin. congruence.
Qed.

(** X5: [add_column] only ever appends: it leaves rows, parent and scalar
    as they are and the columns either unchanged or extended by the new
    column at the end; when it raises the table is untouched, and it raises
    AssertionError for a name starting with ["__"]. *)
Theorem add_column_frame (col : column) (t : table) :
  rows (snd (add_column col t)) = rows t
  /\ parent (snd (add_column col t)) = parent t
  /\ scalar (snd (add_column col t)) = scalar t
  /\ (columns (snd (add_column col t)) = columns t
      \/ columns (snd (add_column col t)) = columns t ++ [col])
  /\ (forall e, fst (add_column col t) = Raise e -> snd (add_column col t) = t)
  /\ (startswith (name col) "__" = true ->
      add_column col t = (Raise AssertionError, t)).
Proof.
  split; [|split; [|split; [|split; [|split]]]].
  4:{ destruct (add_column_columns col t) as [H|[H _]]; auto. }
  all: rewrite add_column_run;
    destruct (startswith (name col) "__"); try discriminate; try reflexivity;
    destruct (add_column_guard col t); try reflexivity;
    destruct (existsb (String.eqb (name col)) (colnames t)); try reflexivity;
    try discriminate.
Qed.

Lemma add_column_frame_witness :
  add_column (Column "__x" (KStr "x")) ex_flat = (Raise AssertionError, ex_flat).
Proof. apply (add_column_frame (Column "__x" (KStr "x")) ex_flat). reflexivity. Defined.

Lemma find_app_new (cs : list column) (col : column) :
  ~ In (name col) (map name cs) ->
  find (fun c => String.eqb (name c) (name col)) (cs ++ [col]) = Some col.
Proof.
  induction cs as [|c cs IH]; simpl; intros H.
  - now rewrite String.eqb_refl.
  - destruct (String.eqb_spec (name c) (name col)) as [E|E]; [tauto|].
    apply IH. tauto.
Qed.

Lemma find_present (cs : list column) (k : string) :
  In k (map name cs) ->
  exists c, find (fun c => String.eqb (name c) k) cs = Some c
            /\ In c cs /\ name c = k.
Proof.
  induction cs as [|c cs IH]; simpl; [tauto|].
  destruct (String.eqb_spec (name c) k) as [E|E].
  - intros _. exists c. auto.
  - intros [H|H]; [contradiction|].
    destruct (IH H) as (c' & Hf & Hin & Hn). exists c'. auto.
Qed.

(** X6: after [add_column(col)] returns, [get_column(col.name)] finds a
    column of that name: [col] itself when the name was new, in which case
    [col] is also the current column the alias ["_"] gives, and otherwise
    the column that had the name before (first definition wins). *)
Theorem get_column_after_add_column (col : column) (t t' : table) :
  name col <> CURRENT_COLNAME ->
  add_column col t = (Ok tt, t') ->
  (~ In (name col) (colnames t) ->
   get_column t' (name col) = Ok (Some col)
   /\ get_column t' CURRENT_COLNAME = Ok (Some col))
  /\ (In (name col) (colnames t) ->
      t' = t /\ exists c, get_column t' (name col) = Ok (Some c)
                          /\ In c (columns t) /\ name c = name col).
Proof.
  intros Hn Hadd. split.
  - intros Hnew. rewrite add_column_run in Hadd.
    destruct (startswith (name col) "__"); [discriminate|].
    destruct (add_column_guard col t); [|discriminate].
    destruct (existsb (String.eqb (name col)) (colnames t)) eqn:E.
    + apply existsb_eqb_In in E. contradiction.
    + injection Hadd as <-. split.
      * rewrite get_column_named by exact Hn. simpl. now rewrite find_app_new.
      * unfold get_column, current_col. simpl. rewrite rev_app_distr. reflexivity.
  - intros Hold. pose proof (add_column_present col t Hold) as Hsame.
    rewrite Hadd in Hsame. simpl in Hsame. subst t'. split; [reflexivity|].
    rewrite get_column_named by exact Hn.
    destruct (find_present (columns t) (name col) Hold) as (c & Hf & Hin & Hc).
    exists c. rewrite Hf. auto.
Qed.

Lemma get_column_after_add_column_witness :
  get_column (mkTable (rows ex_flat) (columns ex_flat ++ [Column "c" (KStr "c")])
                      None VNone) "c"
  = Ok (Some (Column "c" (KStr "c"))).
Proof.
  destruct (get_column_after_add_column (Column "c" (KStr "c")) ex_flat
              (mkTable (rows ex_flat) (columns ex_flat ++ [Column "c" (KStr "c")])
                       None VNone)) as [H _].
  - discriminate.
  - reflexivity.
  - apply H. simpl. intuition discriminate.
Defined.

Lemma add_column_no_reserved (col : column) (t : table) :
  no_reserved_names t -> no_reserved_names (snd (add_column col t)).
Proof.
  intros H c Hin.
  destruct (add_column_columns col t) as [E|(E & _ & Hn & _)]; rewrite E in Hin.
  - now apply H.
  - apply in_app_or in Hin as [Hin|[<-|[]]]; [now apply H|exact Hn].
Qed.

Lemma add_new_columns_no_reserved (row : Row) (t : table) :
  no_reserved_names t -> no_reserved_names (snd (add_new_columns row t)).
Proof.
  intros H. unfold add_new_columns.
  apply (for_each_inv no_reserved_names); [|exact H].
  intros k t' _ H'. destruct (negb (startswith k "__")); [|exact H'].
  now apply add_column_no_reserved.
Qed.

Lemma init_row_inv (P : table -> Prop) :
  (forall rs cs p s, P (mkTable rs cs p s) -> forall rs', P (mkTable rs' cs p s)) ->
  (forall d t, P t -> P (snd (add_new_columns d t))) ->
  forall x t, P t -> P (snd (init_row x t)).
Proof.
  intros Hrows Hadd x t Ht. destruct x; try exact Ht.
  - rewrite init_row_dict. apply Hadd. destruct t. eapply Hrows, Ht.
  - rewrite init_row_lazy. destruct t. eapply Hrows, Ht.
Qed.

Lemma Table_init_inv (P : table -> Prop) :
  (forall rs cs p s, P (mkTable rs cs p s) -> forall rs', P (mkTable rs' cs p s)) ->
  (forall d t, P t -> P (snd (add_new_columns d t))) ->
  (forall p s, P (mkTable [] [] p s)) ->
  forall a p t, Table_init a p = Ok t -> P t.
Proof.
  intros Hrows Hadd Hnil a p t.
  assert (forall items, Table_init (VList items) p = Ok t -> P t) as Hl.
  { intros items. unfold Table_init.
    pose proof (for_each_inv P init_row items
                  (fun x t _ => init_row_inv P Hrows Hadd x t)
                  (mkTable [] [] p VNone) (Hnil p VNone)) as H.
    destruct (for_each items init_row _) as [[u|e] t1]; [|discriminate].
    now intros [= <-]. }
  destruct a; try (intros [= <-]; apply Hnil); apply Hl.
Qed.

Lemma Table_init_no_reserved (a : value) (p : option table) (t : table) :
  Table_init a p = Ok t -> no_reserved_names t.
Proof.
  apply (Table_init_inv no_reserved_names).
  - intros rs cs p' s H rs'. exact H.
  - intros d t'. apply add_new_columns_no_reserved.
  - intros p' s c [].
Qed.

(** the loop of [__copy__]: [add_column] on a table without rows *)
Lemma copy_loop (cs : list column) : forall t,
  rows t = [] ->
  (forallb (fun c => negb (startswith (name c) "__")) cs = true ->
   for_each cs add_column t
   = (Ok tt, mkTable [] (add_cols (columns t) cs) (parent t) (scalar t)))
  /\ (forallb (fun c => negb (startswith (name c) "__")) cs = false ->
      fst (for_each cs add_column t) = Raise AssertionError).
Proof.
  induction cs as [|c cs IH]; intros t Hr;
    destruct t as [rs cs0 p s]; simpl in Hr; subst rs.
  - split; [|discriminate]. reflexivity.
  - rewrite for_each_cons, add_column_run. unfold add_column_guard.
    simpl forallb. simpl rows. cbv iota.
    destruct (startswith (name c) "__"); simpl negb; cbv iota.
    + split; [discriminate|reflexivity].
    + unfold colnames. simpl columns.
      destruct (existsb (String.eqb (name c)) (map name cs0)) eqn:E.
      * destruct (IH (mkTable [] cs0 p s) eq_refl) as [I1 I2]. split; intros H.
        -- rewrite (I1 H). unfold add_cols. simpl. now rewrite E.
        -- exact (I2 H).
      * destruct (IH (mkTable [] (cs0 ++ [c]) p s) eq_refl) as [I1 I2].
        split; intros H.
        -- simpl. rewrite (I1 H). unfold add_cols. simpl. now rewrite E.
        -- exact (I2 H).
Qed.

Lemma add_cols_names (cs acc : list column) :
  map name (add_cols acc cs) = add_names (map name acc) (map name cs).
Proof.
  unfold add_cols, add_names. revert acc.
  induction cs as [|c cs IH]; intros acc; simpl; [reflexivity|].
  rewrite IH. destruct (existsb (String.eqb (name c)) (map name acc)); [reflexivity|].
  now rewrite map_app.
Qed.

Lemma add_cols_NoDup (cs acc : list column) :
  NoDup (map name (acc ++ cs)) -> add_cols acc cs = acc ++ cs.
Proof.
  unfold add_cols. revert acc.
  induction cs as [|c cs IH]; intros acc H; simpl; [now rewrite app_nil_r|].
  destruct (existsb (String.eqb (name c)) (map name acc)) eqn:E.
  - exfalso. apply existsb_eqb_In in E.
    rewrite map_app in H. simpl in H. apply NoDup_remove_2 in H.
    apply H. apply in_or_app. now left.
  - rewrite IH; [now rewrite <- app_assoc|].
    now rewrite <- app_assoc.
Qed.

Lemma no_reserved_forallb (t : table) :
  forallb (fun c => negb (startswith (name c) "__")) (columns t) = true
  <-> no_reserved_names t.
Proof.
  rewrite forallb_forall. unfold no_reserved_names. split; intros H c Hc.
  - specialize (H c Hc). now apply negb_true_iff in H.
  - apply negb_true_iff. now apply H.
Qed.

Lemma Table_copy_run (t : table) :
  no_reserved_names t ->
  Table_copy t = Ok (mkTable [] (add_cols [] (columns t)) None (scalar t)).
Proof.
  intros Hn. apply no_reserved_forallb in Hn.
  destruct (copy_loop (columns t) (mkTable [] [] None VNone) eq_refl) as [H1 _].
  unfold Table_copy. now rewrite (H1 Hn).
Qed.

Lemma Table_copy_no_reserved (t t' : table) :
  Table_copy t = Ok t' -> no_reserved_names t'.
Proof.
  unfold Table_copy.
  pose proof (for_each_inv no_reserved_names add_column (columns t)
                (fun x t _ => add_column_no_reserved x t)
                (mkTable [] [] None VNone)) as H.
  destruct (for_each (columns t) add_column _) as [[u|e] t1]; [|discriminate].
  intros [= <-]. intros c Hc. apply H; [intros ? []|exact Hc].
Qed.

(** X7: [__copy__] returns exactly for a table none of whose column names
    starts with ["__"] (it raises AssertionError otherwise); the copy has no
    rows, no parent, the scalar of the source and the source's column names
    in first-seen order, and when those names are distinct its columns are
    the source's columns, in order, however many rows the source has. *)
Theorem Table_copy_spec (t : table) :
  (no_reserved_names t ->
   exists t', Table_copy t = Ok t'
              /\ rows t' = [] /\ parent t' = None /\ scalar t' = scalar t
              /\ colnames t' = first_seen (colnames t)
              /\ (NoDup (colnames t) -> columns t' = columns t))
  /\ (~ no_reserved_names t -> Table_copy t = Raise AssertionError).
Proof.
  split.
  - intros Hn. rewrite (Table_copy_run t Hn).
    eexists. split; [reflexivity|]. simpl. repeat split.
    + unfold colnames. simpl. now rewrite add_cols_names, add_names_nil.
    + intros Hnd. now apply add_cols_NoDup.
  - intros Hn.
    destruct (copy_loop (columns t) (mkTable [] [] None VNone) eq_refl) as [_ H2].
    unfold Table_copy.
    destruct (forallb (fun c => negb (startswith (name c) "__")) (columns t)) eqn:E.
    + exfalso. apply Hn. now apply no_reserved_forallb.
    + specialize (H2 eq_refl).
      destruct (for_each (columns t) add_column _) as [[u|e] t1]; simpl in H2;
        [discriminate|]. now injection H2 as ->.
Qed.

Lemma Table_copy_spec_witness :
  Table_copy ex_flat = Ok (mkTable [] (columns ex_flat) None VNone).
Proof.
  destruct (proj1 (Table_copy_spec ex_flat)) as (t' & Hc & Hr & Hp & Hs & _ & Hcols).
  - intros c [<-|[<-|[]]]; reflexivity.
  - rewrite Hc. destruct t' as [rs cs p s]. simpl in *. subst.
    rewrite Hcols; [reflexivity|].
    repeat constructor; simpl; intuition discriminate.
Defined.

(** X8: no column name ever starts with the reserved prefix ["__"]:
    [add_column] and [add_new_columns] keep it so, and it holds in every
    table the constructor or [__copy__] returns. *)
Theorem no_reserved_column_names :
  (forall col t, no_reserved_names t -> no_reserved_names (snd (add_column col t)))
  /\ (forall row t, no_reserved_names t ->
                    no_reserved_names (snd (add_new_columns row t)))
  /\ (forall a p t, Table_init a p = Ok t -> no_reserved_names t)
  /\ (forall t t', Table_copy t = Ok t' -> no_reserved_names t').
Proof.
  split; [exact add_column_no_reserved|].
  split; [exact add_new_columns_no_reserved|].
  split; [exact Table_init_no_reserved|].
  exact Table_copy_no_reserved.
Qed.

Lemma no_reserved_column_names_witness : no_reserved_names ex_flat.
Proof.
  destruct no_reserved_column_names as (_ & _ & H & _).
  exact (H ex_flat_rows None ex_flat eq_refl).
Defined.

Lemma add_column_parent (col : column) (t : table) :
  parent (snd (add_column col t)) = parent t.
Proof.
  rewrite add_column_run.
  destruct (startswith (name col) "__"); [reflexivity|].
  destruct (add_column_guard col t); [|reflexivity].
  destruct (existsb (String.eqb (name col)) (colnames t)); reflexivity.
Qed.

(** X25: copying a copy changes nothing: what [__copy__] returns is its own
    structural copy. *)
Theorem Table_copy_idempotent (t t' : table) :
  Table_copy t = Ok t' -> Table_copy t' = Ok t'.
Proof.
  intros H. pose proof (Table_copy_no_reserved t t' H) as Hn.
  pose proof (Table_copy_NoDup t t' H) as Hd.
  rewrite (Table_copy_run t' Hn), (add_cols_NoDup (columns t') [] Hd).
  unfold Table_copy in H.
  pose proof (for_each_inv (fun t => parent t = None) add_column (columns t)) as Hp.
  specialize (Hp (fun x t _ H => eq_trans (add_column_parent x t) H)
                 (mkTable [] [] None VNone) eq_refl).
  destruct (for_each (columns t) add_column _) as [[u|e] t1]; [|discriminate].
  injection H as <-. simpl in *. now rewrite Hp.
Qed.

Lemma Table_copy_idempotent_witness :
  Table_copy (mkTable [] (columns ex_flat) None VNone)
  = Ok (mkTable [] (columns ex_flat) None VNone).
Proof. apply (Table_copy_idempotent ex_flat). reflexivity. Defined.

(** ** Lookup in constructed tables *)

Lemma add_column_field_columns (k : string) (t : table) :
  field_columns t -> field_columns (snd (add_column (Column_of_field k) t)).
Proof.
  intros H c Hin.
  destruct (add_column_columns (Column_of_field k) t) as [E|(E & _)];
    rewrite E in Hin.
  - now apply H.
  - apply in_app_or in Hin as [Hin|[<-|[]]]; [now apply H|reflexivity].
Qed.

Lemma Table_init_field_columns (a : value) (p : option table) (t : table) :
  Table_init a p = Ok t -> field_columns t.
Proof.
  apply (Table_init_inv field_columns).
  - intros rs cs p' s H rs'. exact H.
  - intros d t' H. unfold add_new_columns.
    apply (for_each_inv field_columns); [|exact H].
    intros k t'' _ H'. destruct (negb (startswith k "__")); [|exact H'].
    now apply add_column_field_columns.
  - intros p' s c [].
Qed.

(** X9: in a table that the constructor returns, every row resolves every
    column name other than the alias ["_"] to its own field of that name,
    and to None when the row has no such field: lookup neither raises nor
    goes to the [__parent] chain. *)
Theorem constructed_lookup (a : value) (p : option table) (t : table)
        (r : Row) (k : string) :
  Table_init a p = Ok t ->
  In k (colnames t) -> k <> CURRENT_COLNAME ->
  LazyRow_getitem k (mkLazyRow t r) = Ok (dict_get r k).
Proof.
  intros Hinit Hk Hne.
  pose proof (Table_init_field_columns a p t Hinit) as Hf.
  rewrite LazyRow_getitem_eq, get_column_named by exact Hne. simpl.
  destruct (find_present (columns t) k Hk) as (c & -> & Hin & Hn).
  rewrite (Hf c Hin), Hn. reflexivity.
Qed.

Lemma constructed_lookup_witness :
  LazyRow_getitem "b" (mkLazyRow ex_flat [("a", VInt 3)]) = Ok VNone.
Proof.
  apply (constructed_lookup ex_flat_rows None ex_flat [("a", VInt 3)] "b").
  - reflexivity.
  - simpl. auto.
  - discriminate.
Defined.

Lemma lazyrows_loop (items : list value) : forall t,
  forallb is_lazyrow items = true ->
  for_each items init_row t
  = (Ok tt, mkTable (rows t ++ map input_row items) (columns t) (parent t) (scalar t)).
Proof.
  induction items as [|x items IH]; intros t Hall.
  - simpl. rewrite app_nil_r. now destruct t.
  - simpl in Hall. apply andb_true_iff in Hall as [Hx Hall].
    destruct x; try discriminate.
    rewrite for_each_cons, init_row_lazy, (IH _ Hall). simpl.
    now rewrite <- app_assoc.
Qed.

(** X10: a table built from LazyRows alone takes their rows and has no
    column at all: its shape is the row count alone, and the value of any
    row of it, like the lookup of the alias ["_"], raises IndexError. *)
Theorem Table_of_lazyrows (items : list value) (p : option table) :
  forallb is_lazyrow items = true ->
  exists t, Table_init (VList items) p = Ok t
            /\ rows t = map input_row items
            /\ columns t = []
            /\ shape t = Ok [List.length items]
            /\ forall r, LazyRow_value (mkLazyRow t r) = Raise IndexError
                         /\ LazyRow_getitem CURRENT_COLNAME (mkLazyRow t r)
                            = Raise IndexError.
Proof.
  intros Hall. exists (mkTable (map input_row items) [] p VNone).
  split; [|split; [reflexivity|split; [reflexivity|split]]].
  - unfold Table_init. now rewrite (lazyrows_loop items _ Hall).
  - rewrite shape_eq. simpl. rewrite length_map.
    destruct (map input_row items); reflexivity.
  - intros r. split; [reflexivity|]. now rewrite LazyRow_getitem_eq.
Qed.

Lemma Table_of_lazyrows_witness :
  exists t, Table_init (VList [VLazyRow ex_parent_lr; VLazyRow ex_child_lr]) None = Ok t
            /\ columns t = [] /\ shape t = Ok [2].
Proof.
  destruct (Table_of_lazyrows [VLazyRow ex_parent_lr; VLazyRow ex_child_lr] None eq_refl)
    as (t & H1 & _ & H3 & H4 & _).
  exists t. auto.
Defined.

(** ** Lookup on a row *)

(** X11: a column of the row's own table shadows the whole [__parent]
    chain: for a name other than ["_"] that the own table has, lookup is the
    value of the first column of that name on the row itself, whatever the
    row has under [__parent] and even when that value is None. *)
Theorem own_column_shadows_chain (k : string) (t : table) (r : Row) (c : column) :
  k <> CURRENT_COLNAME ->
  first_column_named k t c ->
  LazyRow_getitem k (mkLazyRow t r) = get_value c (VDict r)
  /\ forall v, LazyRow_getitem k (mkLazyRow t (dict_set r "__parent" v))
               = get_value c (VDict (dict_set r "__parent" v)).
Proof.
  intros Hk Hc. split; [|intros v]; now apply LazyRow_getitem_hit.
Qed.

Lemma own_column_shadows_chain_witness :
  LazyRow_getitem "c" (mkLazyRow ex_shadow [("c", VNone); ("__parent", VLazyRow ex_shadow_parent)])
  = Ok VNone.
Proof.
  apply (own_column_shadows_chain "c" ex_shadow
           [("c", VNone); ("__parent", VLazyRow ex_shadow_parent)]
           (Column "c" (KStr "c"))).
  - discriminate.
  - exists [], []. repeat split. intros c' [].
Defined.

(** X12: the value of a row is what looking up the alias ["_"] gives: the
    last column's value on the row, without any walk up the chain, and
    IndexError when the table has no column. *)
Theorem value_is_alias_lookup (lr : lazyrow) :
  LazyRow_getitem CURRENT_COLNAME lr = LazyRow_value lr
  /\ (columns (_table lr) = [] -> LazyRow_value lr = Raise IndexError)
  /\ (forall cs c, columns (_table lr) = cs ++ [c] ->
                   LazyRow_value lr = get_value c (VDict (_row lr))).
Proof.
  split; [|split].
  - rewrite LazyRow_getitem_eq. unfold get_column, LazyRow_value. simpl.
    destruct (current_col (_table lr)); reflexivity.
  - intros H. unfold LazyRow_value, current_col. now rewrite H.
  - intros cs c H. unfold LazyRow_value, current_col.
    rewrite H, rev_app_distr. reflexivity.
Qed.

Lemma value_is_alias_lookup_witness :
  LazyRow_getitem "_" ex_parent_lr = Ok (VInt 2)
  /\ LazyRow_value ex_parent_lr = Ok (VInt 2).
Proof.
  destruct (value_is_alias_lookup ex_parent_lr) as (H1 & _ & H3).
  split.
  - etransitivity; [exact H1|].
    apply (H3 [Column "a" (KStr "a")] (Column "b" (KStr "b"))). reflexivity.
  - apply (H3 [Column "a" (KStr "a")] (Column "b" (KStr "b"))). reflexivity.
Defined.

Lemma mapM_length {A B : Type} (f : A -> result B) (l : list A) : forall l',
  mapM f l = Ok l' ->
  List.length l' = List.length l
  /\ forall i a, nth_error l i = Some a ->
                 exists b, nth_error l' i = Some b /\ f a = Ok b.
Proof.
  induction l as [|a l IH]; simpl; intros l' H.
  - injection H as <-. split; [reflexivity|]. intros [|i] a Ha; discriminate.
  - destruct (f a) as [b|e] eqn:Ef; simpl in H; [|discriminate].
    destruct (mapM f l) as [bs|e]; simpl in H; [|discriminate].
    injection H as <-. destruct (IH bs eq_refl) as [Hl Hn].
    split; [simpl; now rewrite Hl|].
    intros [|i] a' Ha; simpl in *.
    + injection Ha as <-. eauto.
    + now apply Hn.
Qed.

(** X13: the values of a scalar table are the scalar alone; those of a
    table without scalar, when [values] returns, are one per row, the [i]-th
    being the value of the [i]-th row; [values] of a table with rows but no
    column raises IndexError, and of a table without rows it is empty. *)
Theorem Table_values_spec (t : table) :
  (is_None (scalar t) = false -> Table_values t = Ok [scalar t])
  /\ (is_None (scalar t) = true ->
      (forall vs, Table_values t = Ok vs ->
         List.length vs = Table_len t
         /\ forall i r, nth_error (rows t) i = Some r ->
              exists v, nth_error vs i = Some v
                        /\ LazyRow_value (mkLazyRow t r) = Ok v)
      /\ (rows t = [] -> Table_values t = Ok [])
      /\ (rows t <> [] -> columns t = [] -> Table_values t = Raise IndexError)).
Proof.
  unfold Table_values, Table_iter. split; intros Hs; rewrite Hs; simpl; [reflexivity|].
  split; [|split].
  - intros vs H. apply mapM_length in H as [Hl Hn]. split.
    + now rewrite Hl, length_map.
    + intros i r Hr.
      destruct (Hn i (VLazyRow (mkLazyRow t r))) as (v & Hv & Hf).
      * now rewrite nth_error_map, Hr.
      * exists v. auto.
  - intros ->. reflexivity.
  - intros Hr Hc. destruct (rows t) as [|r rs]; [contradiction|]. simpl.
    unfold LazyRow_value, current_col. simpl. now rewrite Hc.
Qed.

Lemma Table_values_spec_witness :
  Table_values (mkTable [] [] None (VInt 5)) = Ok [VInt 5]
  /\ Table_values ex_flat = Ok [VInt 2; VInt 4]
  /\ Table_values (mkTable [[("a", VInt 1)]] [] None VNone) = Raise IndexError.
Proof.
  destruct (Table_values_spec (mkTable [] [] None (VInt 5))) as [H1 _].
  destruct (Table_values_spec (mkTable [[("a", VInt 1)]] [] None VNone)) as [_ H2].
  destruct (H2 eq_refl) as (_ & _ & H3).
  split; [apply H1; reflexivity|]. split; [reflexivity|].
  apply H3; [discriminate|reflexivity].
Defined.

(** ** Column values *)

(** X14: a column reads what the row stores: a field key gives the field's
    value; a path key gives the value at the end of the path through nested
    mappings, and the row itself when the path is empty; a path that goes
    on after a value that is neither None nor a mapping raises
    AttributeError. *)
Theorem Column_get_value_reads (n : string) (d : Row) :
  (forall k v, dict_lookup d k = Some v ->
               get_value (Column n (KStr k)) (VDict d) = Ok v)
  /\ (forall pre k d' v, reach d pre d' -> dict_lookup d' k = Some v ->
        get_value (Column n (KPath (pre ++ [k]))) (VDict d) = Ok v)
  /\ get_value (Column n (KPath [])) (VDict d) = Ok (VDict d)
  /\ (forall pre k d' v k' post,
        reach d pre d' -> dict_lookup d' k = Some v ->
        is_None v = false -> no_get v = true ->
        get_value (Column n (KPath (pre ++ k :: k' :: post))) (VDict d)
        = Raise AttributeError).
Proof.
  split; [|split; [|split]].
  - intros k v Hk. rewrite get_value_eq. simpl. unfold dict_get. now rewrite Hk.
  - intros pre k d' v Hr Hk. rewrite get_value_eq, (reach_walk_path _ _ _ Hr).
    simpl. unfold dict_get. rewrite Hk. simpl. now destruct v.
  - reflexivity.
  - intros pre k d' v k' post Hr Hk Hn Hg.
    rewrite get_value_eq, (reach_walk_path _ _ _ Hr).
    simpl. unfold dict_get. rewrite Hk. simpl. rewrite Hn.
    destruct v; try discriminate; reflexivity.
Qed.

Lemma Column_get_value_reads_witness :
  get_value (Column "x" (KPath ["n"; "m"; "x"])) (VDict ex_deep_row) = Ok (VInt 4)
  /\ get_value (Column "y" (KPath ["n"; "i"; "y"])) (VDict ex_deep_row)
     = Raise AttributeError.
Proof.
  destruct (Column_get_value_reads "x" ex_deep_row) as (_ & H2 & _).
  destruct (Column_get_value_reads "y" ex_deep_row) as (_ & _ & _ & H4).
  split.
  - apply (H2 ["n"; "m"] "x" [("x", VInt 4)] (VInt 4)); [|reflexivity].
    eapply reach_step; [reflexivity|].
    eapply reach_step; [reflexivity|]. apply reach_here.
  - apply (H4 ["n"] "i" [("m", VDict [("x", VInt 4)]); ("i", VInt 1)] (VInt 1) "y" []);
      try reflexivity.
    eapply reach_step; [reflexivity|]. apply reach_here.
Defined.

(** ** Shape, rank and axis *)

(** X15: the rank is 0 exactly for a table with a scalar; the shape of any
    other table, when [shape] returns, starts with its row count. *)
Theorem rank_zero_iff_scalar (t : table) :
  (rank t = Ok 0 <-> is_None (scalar t) = false)
  /\ (is_None (scalar t) = true ->
      forall s, shape t = Ok s -> exists s', s = Table_len t :: s').
Proof.
  assert (is_None (scalar t) = true ->
          forall s, shape t = Ok s -> exists s', s = Table_len t :: s') as H.
  { intros Hs s. rewrite shape_eq, Hs. unfold Table_len. simpl.
    destruct (rows t) as [|row0 rs]; [intros [= <-]; eauto|].
    destruct (columns t) as [|c0 cs]; [intros [= <-]; eauto|].
    destruct (current_col t) as [c|e]; simpl; [|discriminate].
    destruct (get_value c (VDict row0)) as [v|e]; simpl; [|discriminate].
    destruct v; try (intros [= <-]; eauto).
    destruct (shape t0) as [s0|e]; simpl; [|discriminate].
    intros [= <-]. eauto. }
  split; [|exact H]. split.
  - intros Hr. destruct (is_None (scalar t)) eqn:Hs; [|reflexivity].
    unfold rank in Hr. destruct (shape t) as [s|e] eqn:E; simpl in Hr; [|discriminate].
    destruct (H eq_refl s eq_refl) as [s' ->]. discriminate.
  - intros Hs. now apply scalar_table_shape.
Qed.

Lemma rank_zero_iff_scalar_witness :
  rank (mkTable [] [] None (VInt 5)) = Ok 0
  /\ exists s', [2] = Table_len ex_flat :: s'.
Proof.
  split.
  - apply (proj1 (rank_zero_iff_scalar (mkTable [] [] None (VInt 5)))). reflexivity.
  - apply (proj2 (rank_zero_iff_scalar ex_flat) eq_refl [2]). reflexivity.
Defined.

(** X16: a table without scalar that has no rows, or no columns, or whose
    current column's value on the first row is not a table, has the shape
    [[len(rows)]]; when that value cannot be read, [shape] raises what
    [get_value] raises. *)
Theorem shape_flat (t : table) :
  is_None (scalar t) = true ->
  (rows t = [] \/ columns t = [] -> shape t = Ok [Table_len t])
  /\ (forall row0 rs cs c,
        rows t = row0 :: rs -> columns t = cs ++ [c] ->
        (forall v, get_value c (VDict row0) = Ok v -> is_Table v = false ->
                   shape t = Ok [Table_len t])
        /\ (forall e, get_value c (VDict row0) = Raise e -> shape t = Raise e)).
Proof.
  intros Hs. unfold Table_len. split.
  - intros H. rewrite shape_eq, Hs. simpl.
    destruct (rows t); [reflexivity|].
    destruct H as [H|H]; [discriminate|]. now rewrite H.
  - intros row0 rs cs c Hr Hc.
    assert (current_col t = Ok c) as Hcur.
    { destruct t as [ur uc up us]. simpl in Hc. subst uc. apply current_col_app. }
    split.
    + intros v Hv Hn. rewrite shape_eq, Hs, Hr, Hcur. simpl. rewrite Hc.
      destruct cs; simpl; rewrite Hv; simpl; destruct v; try reflexivity; discriminate.
    + intros e He. rewrite shape_eq, Hs, Hr, Hcur. simpl. rewrite Hc.
      destruct cs; simpl; rewrite He; reflexivity.
Qed.

Lemma shape_flat_witness :
  shape ex_flat = Ok [2]
  /\ shape (mkTable [[("a", VInt 1)]] [ex_subcol] None VNone) = Raise (KeyError "sub").
Proof.
  destruct (shape_flat ex_flat eq_refl) as [_ H].
  destruct (H [("a", VInt 1); ("b", VInt 2)] [[("a", VInt 3); ("b", VInt 4)]]
              [Column "a" (KStr "a")] (Column "b" (KStr "b")) eq_refl eq_refl)
    as [H1 _].
  destruct (shape_flat (mkTable [[("a", VInt 1)]] [ex_subcol] None VNone) eq_refl)
    as [_ H'].
  destruct (H' [("a", VInt 1)] [] [] ex_subcol eq_refl eq_refl) as [_ H2].
  split.
  - apply (H1 (VInt 2)); reflexivity.
  - apply H2. reflexivity.
Defined.

Lemma list_index_0 {A : Type} (l : list A) :
  list_index l 0 = match l with a :: _ => Ok a | [] => Raise IndexError end.
Proof. destruct l; reflexivity. Qed.

Lemma axis_fuel_enough (r : Z) (n : nat) : forall m t,
  tsize t <= n -> tsize t <= m -> axis_fuel n t r = axis_fuel m t r.
Proof.
  induction n as [|n IH]; intros m t Hn Hm.
  - pose proof (tsize_pos t). lia.
  - destruct m as [|m]; [pose proof (tsize_pos t); lia|]. simpl.
    destruct (rank t) as [rk|e]; simpl; [|reflexivity].
    destruct (Z.of_nat rk >? r)%Z; [|reflexivity].
    destruct (current_col t) as [c|e]; simpl; [|reflexivity].
    rewrite list_index_0. destruct (rows t) as [|row0 rs] eqn:Er; simpl; [reflexivity|].
    destruct (get_value c (VDict row0)) as [v|e] eqn:Ev; simpl; [|reflexivity].
    destruct v; try reflexivity.
    apply get_value_small in Ev. rewrite vsize_VDict in Ev. simpl in Ev.
    assert (In row0 (rows t)) as Hin by (rewrite Er; now left).
    apply tsize_row in Hin. apply IH; lia.
Qed.

(** [Table.axis], as the source writes it *)
Lemma axis_eq (t : table) (r : Z) :
  axis t r =
    (rk <- rank t ;;
     if (Z.of_nat rk >? r)%Z then
       c <- current_col t ;;
       row0 <- list_index (rows t) 0 ;;
       firstrowval <- get_value c (VDict row0) ;;
       match firstrowval with
       | VTable t' => axis t' r
       | _ => Raise AttributeError
       end
     else Ok t).
Proof.
  unfold axis at 1. pose proof (tsize_pos t) as Hp.
  destruct (tsize t) as [|n] eqn:En; [lia|]. simpl.
  destruct (rank t) as [rk|e]; simpl; [|reflexivity].
  destruct (Z.of_nat rk >? r)%Z; [|reflexivity].
  destruct (current_col t) as [c|e]; simpl; [|reflexivity].
  rewrite list_index_0. destruct (rows t) as [|row0 rs] eqn:Er; simpl; [reflexivity|].
  destruct (get_value c (VDict row0)) as [v|e] eqn:Ev; simpl; [|reflexivity].
  destruct v; try reflexivity.
  apply get_value_small in Ev. rewrite vsize_VDict in Ev. simpl in Ev.
  assert (In row0 (rows t)) as Hin by (rewrite Er; now left).
  apply tsize_row in Hin. unfold axis. apply axis_fuel_enough; lia.
Qed.

Lemma rank_nested (t t0 : table) (c : column) (row0 : Row) (rs : list Row) (k : nat) :
  rank t = Ok k -> 0 < k ->
  current_col t = Ok c -> rows t = row0 :: rs ->
  get_value c (VDict row0) = Ok (VTable t0) ->
  exists k0, rank t0 = Ok k0 /\ k = S k0.
Proof.
  intros Hk Hpos Hc Hr Hv. unfold rank in *.
  rewrite shape_eq in Hk.
  destruct (is_None (scalar t)); simpl in Hk; [|injection Hk as <-; lia].
  rewrite Hr, Hc in Hk. apply current_col_in in Hc as [cs Hcs]. rewrite Hcs in Hk.
  assert (match cs ++ [c] with [] => False | _ :: _ => True end) as Hne
      by (destruct cs; exact I).
  destruct (cs ++ [c]); [contradiction|]. simpl in Hk. rewrite Hv in Hk. simpl in Hk.
  destruct (shape t0) as [s0|e]; simpl in Hk; [|discriminate].
  injection Hk as <-. exists (List.length s0). split; reflexivity.
Qed.

Lemma axis_fuel_rank (r : Z) (n : nat) : forall t t',
  axis_fuel n t r = Ok t' ->
  exists k, rank t = Ok k /\ rank t' = Ok (Nat.min k (Z.to_nat r)) /\ (0 <= r)%Z.
Proof.
  induction n as [|n IH]; intros t t'; simpl; [discriminate|].
  destruct (rank t) as [k|e] eqn:Ek; simpl; [|discriminate].
  destruct (Z.gtb_spec (Z.of_nat k) r) as [Hgt|Hle].
  - destruct (current_col t) as [c|e] eqn:Ec; simpl; [|discriminate].
    rewrite list_index_0. destruct (rows t) as [|row0 rs] eqn:Er; simpl; [discriminate|].
    destruct (get_value c (VDict row0)) as [v|e] eqn:Ev; simpl; [|discriminate].
    destruct v; try discriminate.
    intros H. destruct (IH _ _ H) as (k0 & Hk0 & Hk' & Hr0).
    destruct (rank_nested t t0 c row0 rs k Ek ltac:(lia) Ec Er Ev) as (k1 & Hk1 & ->).
    rewrite Hk0 in Hk1. injection Hk1 as ->.
    exists (S k1). repeat split; [|exact Hr0].
    rewrite Hk'. f_equal. lia.
  - intros [= <-]. exists k. repeat split; [|lia].
    rewrite Ek. f_equal. lia.
Qed.

(** X17: [axis(r)] returns the table itself when its rank is at most [r];
    whenever it returns, what it returns has rank [min(rank, r)] (so it
    never returns for a negative [r]); on a table of larger rank with no
    rows or no columns it raises IndexError, and when the current column's
    value on the first row is not a table it raises AttributeError. *)
Theorem axis_rank (t : table) (r : Z) :
  (forall k, rank t = Ok k -> (Z.of_nat k <= r)%Z -> axis t r = Ok t)
  /\ (forall t', axis t r = Ok t' ->
        exists k, rank t = Ok k /\ rank t' = Ok (Nat.min k (Z.to_nat r))
                  /\ (0 <= r)%Z)
  /\ (forall k, rank t = Ok k -> (r < Z.of_nat k)%Z ->
        (rows t = [] \/ columns t = [] -> axis t r = Raise IndexError)
        /\ (forall row0 rs cs c v,
              rows t = row0 :: rs -> columns t = cs ++ [c] ->
              get_value c (VDict row0) = Ok v -> is_Table v = false ->
              axis t r = Raise AttributeError)).
Proof.
  split; [|split].
  - intros k Hk Hle. rewrite axis_eq, Hk. simpl.
    destruct (Z.gtb_spec (Z.of_nat k) r); [lia|reflexivity].
  - intros t'. apply axis_fuel_rank.
  - intros k Hk Hlt. split.
    + intros H. rewrite axis_eq, Hk. simpl.
      destruct (Z.gtb_spec (Z.of_nat k) r); [|lia].
      unfold current_col. destruct H as [H|H].
      * destruct (rev (columns t)); simpl; [reflexivity|]. now rewrite H.
      * now rewrite H.
    + intros row0 rs cs c v Hr Hc Hv Hn. rewrite axis_eq, Hk. simpl.
      destruct (Z.gtb_spec (Z.of_nat k) r); [|lia].
      assert (current_col t = Ok c) as ->.
      { destruct t as [ur uc up us]. simpl in Hc. subst uc. apply current_col_app. }
      simpl. rewrite Hr. simpl. rewrite Hv. simpl.
      destruct v; try reflexivity; discriminate.
Qed.

Lemma axis_rank_witness :
  axis ex_outer 5 = Ok ex_outer
  /\ axis ex_outer 1 = Ok ex_inner2
  /\ rank ex_inner2 = Ok 1
  /\ axis ex_flat 0 = Raise AttributeError.
Proof.
  destruct (axis_rank ex_outer 5) as (H1 & _).
  destruct (axis_rank ex_outer 1) as (_ & H2 & _).
  destruct (axis_rank ex_flat 0) as (_ & _ & H3).
  split; [apply (H1 2); [reflexivity|lia]|].
  assert (axis ex_outer 1 = Ok ex_inner2) as Ha by reflexivity.
  split; [exact Ha|]. split.
  - destruct (H2 _ Ha) as (k & Hk & Hk' & _).
    assert (k = 2) as -> by (assert (rank ex_outer = Ok 2) as E by reflexivity;
                             rewrite E in Hk; now injection Hk).
    exact Hk'.
  - destruct (H3 1 eq_refl ltac:(lia)) as [_ H4].
    apply (H4 [("a", VInt 1); ("b", VInt 2)] [[("a", VInt 3); ("b", VInt 4)]]
              [Column "a" (KStr "a")] (Column "b" (KStr "b")) (VInt 2)); reflexivity.
Defined.

(** ** More on flattening *)

Lemma dict_del_absent (d : Row) (k : string) :
  ~ In k (dict_keys d) -> dict_del d k = d.
Proof.
  unfold dict_del, dict_keys. induction d as [|[k0 v0] d IH]; simpl; intros H; [reflexivity|].
  destruct (String.eqb_spec k0 k) as [->|N]; simpl; [tauto|].
  rewrite IH; tauto.
Qed.

Lemma dict_set_absent (d : Row) (k : string) (v : value) :
  ~ In k (dict_keys d) -> dict_set d k v = d ++ [(k, v)].
Proof.
  unfold dict_keys. induction d as [|[k0 v0] d IH]; simpl; intros H; [reflexivity|].
  destruct (String.eqb_spec k0 k) as [->|N]; [tauto|].
  rewrite IH; tauto.
Qed.

Lemma dict_del_keys (d : Row) (k : string) :
  dict_keys (dict_del d k) = filter (fun k' => negb (String.eqb k' k)) (dict_keys d).
Proof.
  unfold dict_del, dict_keys. induction d as [|[k0 v0] d IH]; simpl; [reflexivity|].
  destruct (String.eqb k0 k); simpl; now rewrite IH.
Qed.

Lemma dict_mem_In (d : Row) (k : string) : dict_mem d k = true <-> In k (dict_keys d).
Proof. apply existsb_eqb_In. Qed.

(** deleting an old entry and writing the new one puts the key last *)
Lemma dict_put_eq (d : Row) (k : string) (v : value) :
  dict_put d k v = dict_del d k ++ [(k, v)].
Proof.
  unfold dict_put. destruct (dict_mem d k) eqn:E.
  - apply dict_set_absent. rewrite dict_del_keys, filter_In, String.eqb_refl.
    intros [_ H]. discriminate.
  - assert (~ In k (dict_keys d)) as H
        by (intros H; apply dict_mem_In in H; congruence).
    rewrite (dict_del_absent d k H). now apply dict_set_absent.
Qed.

Lemma dict_put_keys (d : Row) (k : string) (v : value) :
  dict_keys (dict_put d k v)
  = filter (fun k' => negb (String.eqb k' k)) (dict_keys d) ++ [k].
Proof.
  rewrite dict_put_eq. unfold dict_keys at 1. rewrite map_app. simpl.
  f_equal. apply dict_del_keys.
Qed.

Lemma dict_put_NoDup (d : Row) (k : string) (v : value) :
  NoDup (dict_keys d) -> NoDup (dict_keys (dict_put d k v)).
Proof.
  intros H. rewrite dict_put_keys. apply NoDup_app.
  - now apply NoDup_filter.
  - repeat constructor. intros [].
  - intros x Hx [<-|[]]. apply filter_In in Hx as [_ Hx].
    rewrite String.eqb_refl in Hx. discriminate.
Qed.

Lemma dict_put_length (d : Row) (k : string) (v : value) :
  List.length (dict_keys (dict_put d k v)) <= S (List.length (dict_keys d)).
Proof.
  rewrite dict_put_keys, length_app. simpl.
  pose proof (filter_length_le (fun k' => negb (String.eqb k' k)) (dict_keys d)). lia.
Qed.

Section MoreRowFlatten.
Variable py_str : value -> result string.
Variable item : value -> result value.
Variable row : Row.
Variable named_only : bool.

Lemma asdict_step_cases (c : column) (b : bool) (d d' : Row) :
  asdict_step py_str item row named_only c b d = Ok d' ->
  d' = d
  \/ exists k v v', asdict_key named_only c b = Some k
                    /\ get_value c (VDict row) = Ok v /\ is_None v = false
                    /\ asdict_value py_str item v = Ok v'
                    /\ d' = dict_put d k v'.
Proof.
  unfold asdict_step.
  destruct (asdict_key named_only c b) as [k|]; [|intros [= <-]; now left].
  destruct (get_value c (VDict row)) as [v|e] eqn:Ev; simpl; [|discriminate].
  destruct (is_None v) eqn:En; [intros [= <-]; now left|].
  destruct (asdict_value py_str item v) as [v'|e] eqn:Ea; simpl; [|discriminate].
  intros [= <-]. right. exists k, v, v'. repeat split; auto.
Qed.

Lemma asdict_loop_keys (cs : list column) : forall d d',
  asdict_loop py_str item row named_only cs d = Ok d' ->
  NoDup (dict_keys d) ->
  NoDup (dict_keys d')
  /\ List.length (dict_keys d') <= List.length (dict_keys d) + List.length cs
  /\ forall k, In k (dict_keys d') ->
       In k (dict_keys d)
       \/ (k = CURRENT_COLNAME /\ named_only = false)
       \/ (startswith k "_" = false /\ In k (map name cs)).
Proof.
  induction cs as [|c cs IH]; simpl; intros d d' Hrun Hnd.
  - injection Hrun as <-. split; [exact Hnd|]. split; [lia|]. auto.
  - destruct (asdict_step py_str item row named_only c (is_nil cs) d) as [d1|e] eqn:Es;
      simpl in Hrun; [|discriminate].
    apply asdict_step_cases in Es.
    destruct Es as [->|(k & v & v' & Hk & _ & _ & _ & ->)].
    + destruct (IH _ _ Hrun Hnd) as (I1 & I2 & I3).
      split; [exact I1|]. split; [lia|].
      intros k Hk. destruct (I3 k Hk) as [H|[H|[H1 H2]]]; auto.
    + destruct (IH _ _ Hrun (dict_put_NoDup d k v' Hnd)) as (I1 & I2 & I3).
      split; [exact I1|]. split.
      * pose proof (dict_put_length d k v'). lia.
      * intros k0 Hk0. destruct (I3 k0 Hk0) as [H|[H|[H1 H2]]]; auto.
        rewrite dict_put_keys in H. apply in_app_or in H as [H|[<-|[]]].
        -- apply filter_In in H. tauto.
        -- apply asdict_key_hidden_name in Hk
             as [[Hh ->]|(_ & -> & -> & _)]; auto.
Qed.

(** the last column that puts a key decides the value under it *)
Lemma asdict_loop_last_put (cs1 cs2 : list column) (c : column) (k : string)
      (v : value) (d d' : Row) :
  asdict_key named_only c (is_nil cs2) = Some k ->
  get_value c (VDict row) = Ok v -> is_None v = false ->
  (forall cs2a c' cs2b v', cs2 = cs2a ++ c' :: cs2b ->
     asdict_key named_only c' (is_nil cs2b) = Some k ->
     get_value c' (VDict row) = Ok v' -> is_None v' = true) ->
  asdict_loop py_str item row named_only (cs1 ++ c :: cs2) d = Ok d' ->
  exists v', asdict_value py_str item v = Ok v' /\ dict_lookup d' k = Some v'.
Proof.
  intros Hk Hv Hn Hlater Hrun.
  destruct (asdict_loop_split _ _ _ _ _ _ _ _ _ Hrun) as (d1 & d2 & Hs & Hrest).
  unfold asdict_step in Hs. rewrite Hk, Hv in Hs. simpl in Hs. rewrite Hn in Hs.
  destruct (asdict_value py_str item v) as [v'|e]; simpl in Hs; [|discriminate].
  injection Hs as <-. exists v'. split; [reflexivity|].
  rewrite (asdict_loop_frame _ _ _ _ k _ _ _ Hrest Hlater).
  now rewrite dict_lookup_put, String.eqb_refl.
Qed.
End MoreRowFlatten.

Lemma filter_neq_absent (k : string) (l : list string) :
  ~ In k l -> filter (fun k' => negb (String.eqb k' k)) l = l.
Proof.
  induction l as [|x l IH]; simpl; intros H; [reflexivity|].
  destruct (String.eqb_spec x k) as [->|N]; simpl; [tauto|].
  rewrite IH; tauto.
Qed.

Lemma rank_scalar (t : table) (rk : nat) :
  rank t = Ok rk -> (rk = 0 <-> is_None (scalar t) = false).
Proof.
  unfold rank. rewrite shape_eq.
  destruct (is_None (scalar t)); simpl.
  - destruct (rows t) as [|row0 rs]; [intros [= <-]; split; discriminate|].
    destruct (columns t) as [|c0 cs]; [intros [= <-]; split; discriminate|].
    destruct (current_col t) as [c|e]; simpl; [|discriminate].
    destruct (get_value c (VDict row0)) as [v|e]; simpl; [|discriminate].
    destruct v; try (intros [= <-]; split; discriminate).
    destruct (shape t0) as [s0|e]; simpl; [|discriminate].
    intros [= <-]. split; discriminate.
  - intros [= <-]. tauto.
Qed.

Lemma no_later_put (named_only : bool) (cs1 cs2 : list column) (c : column) (k : string) :
  NoDup (map name (cs1 ++ c :: cs2)) ->
  asdict_key named_only c (is_nil cs2) = Some k ->
  forall cs2a c' cs2b, cs2 = cs2a ++ c' :: cs2b ->
    asdict_key named_only c' (is_nil cs2b) = Some k -> False.
Proof.
  intros Hnd Hk cs2a c' cs2b Heq Hk'.
  assert (cs1 ++ c :: cs2 = (cs1 ++ c :: cs2a) ++ c' :: cs2b) as Heq'
      by (rewrite Heq, <- app_assoc; reflexivity).
  destruct (key_position_unique named_only _ _ _ _ _ _ k Hnd Heq' Hk Hk')
    as (E & _ & _).
  apply (f_equal (@List.length _)) in E. rewrite length_app in E. simpl in E. lia.
Qed.

Lemma put_keys_In (named_only : bool) (row : Row) (k : string) (cs : list column) :
  In k (put_keys named_only row cs) ->
  exists cs1 c cs2 v, cs = cs1 ++ c :: cs2
                      /\ asdict_key named_only c (is_nil cs2) = Some k
                      /\ get_value c (VDict row) = Ok v /\ is_None v = false.
Proof.
  induction cs as [|c cs IH]; simpl; [tauto|].
  assert (In k (put_keys named_only row cs) ->
          exists cs1 c0 cs2 v, c :: cs = cs1 ++ c0 :: cs2
                      /\ asdict_key named_only c0 (is_nil cs2) = Some k
                      /\ get_value c0 (VDict row) = Ok v /\ is_None v = false) as Hrest.
  { intros H. destruct (IH H) as (cs1 & c0 & cs2 & v & -> & H1 & H2 & H3).
    exists (c :: cs1), c0, cs2, v. auto. }
  destruct (asdict_key named_only c (is_nil cs)) as [k0|] eqn:Ek; [|exact Hrest].
  destruct (get_value c (VDict row)) as [v|e] eqn:Ev; [|exact Hrest].
  destruct (is_None v) eqn:En; [exact Hrest|].
  intros [<-|H]; [|now apply Hrest].
  exists [], c, cs, v. auto.
Qed.

Lemma first_column_by_name (cs1 cs2 : list column) (c : column) (t : table) :
  NoDup (colnames t) -> columns t = cs1 ++ c :: cs2 ->
  first_column_named (name c) t c.
Proof.
  intros Hnd Hcs. exists cs1, cs2. split; [exact Hcs|]. split; [reflexivity|].
  intros c' Hin Hn. unfold colnames in Hnd. rewrite Hcs, map_app in Hnd.
  simpl in Hnd. apply NoDup_remove_2 in Hnd. apply Hnd.
  apply in_or_app. left. rewrite <- Hn. now apply in_map.
Qed.

Section FlattenMore.
Variable py_str : value -> result string.

Lemma asdict_value_table (tv : table) (a : value) :
  asdict_value py_str (item_asdict py_str) (VTable tv) = Ok a ->
  Table_asdict py_str tv = Ok a.
Proof.
  rewrite Table_asdict_eq. unfold asdict_value.
  destruct (rank tv) as [rk|e] eqn:Er; simpl; [|discriminate].
  pose proof (rank_scalar tv rk Er) as Hs.
  destruct (Nat.eqb_spec rk 0) as [->|N].
  - intros [= <-]. rewrite (proj1 Hs eq_refl). reflexivity.
  - destruct (is_None (scalar tv)); [intros H; exact H|].
    exfalso. apply N. now apply Hs.
Qed.

Lemma asdict_loop_order (named_only : bool) (row : Row) (cs : list column) :
  forall pre d d',
    NoDup (map name (pre ++ cs)) ->
    (forall k, In k (dict_keys d) ->
       exists pre1 c pre2, pre = pre1 ++ c :: pre2
                           /\ asdict_key named_only c (is_nil (pre2 ++ cs)) = Some k) ->
    asdict_loop py_str (item_asdict py_str) row named_only cs d = Ok d' ->
    dict_keys d' = dict_keys d ++ put_keys named_only row cs.
Proof.
  induction cs as [|c cs IH]; intros pre d d' Hnd Hinv Hrun.
  - simpl in *. injection Hrun as <-. now rewrite app_nil_r.
  - assert (forall d1, (forall k, In k (dict_keys d1) ->
               In k (dict_keys d)
               \/ asdict_key named_only c (is_nil cs) = Some k) ->
            forall k, In k (dict_keys d1) ->
            exists pre1 c' pre2, pre ++ [c] = pre1 ++ c' :: pre2
              /\ asdict_key named_only c' (is_nil (pre2 ++ cs)) = Some k) as Hnext.
    { intros d1 H1 k Hk. destruct (H1 k Hk) as [H|H].
      - destruct (Hinv k H) as (pre1 & c' & pre2 & -> & Hc').
        exists pre1, c', (pre2 ++ [c]). split.
        + now rewrite <- app_assoc.
        + rewrite <- app_assoc. exact Hc'.
      - exists pre, c, []. split; [reflexivity|exact H]. }
    assert (NoDup (map name ((pre ++ [c]) ++ cs))) as Hnd'
        by now rewrite <- app_assoc.
    simpl in Hrun. unfold asdict_step in Hrun. simpl put_keys.
    destruct (asdict_key named_only c (is_nil cs)) as [k|] eqn:Ek.
    + destruct (get_value c (VDict row)) as [v|e] eqn:Ev; simpl in Hrun; [|discriminate].
      destruct (is_None v) eqn:En.
      * simpl in Hrun. apply (IH (pre ++ [c]) d d' Hnd'); [|exact Hrun].
        apply Hnext. auto.
      * destruct (asdict_value py_str (item_asdict py_str) v) as [v'|e];
          simpl in Hrun; [|discriminate].
        assert (~ In k (dict_keys d)) as Hfresh.
        { intros Hin. destruct (Hinv k Hin) as (pre1 & c' & pre2 & Hpre & Hc').
          assert (pre ++ c :: cs = pre1 ++ c' :: (pre2 ++ c :: cs)) as Heq
              by (rewrite Hpre, <- app_assoc; reflexivity).
          destruct (key_position_unique named_only _ _ _ _ _ _ k Hnd Heq Ek Hc')
            as (E & _ & _).
          apply (f_equal (@List.length _)) in Hpre.
          rewrite E, length_app in Hpre. simpl in Hpre. lia. }
        assert (forall k0, In k0 (dict_keys (dict_put d k v')) ->
                           In k0 (dict_keys d) \/ Some k = Some k0) as Hput.
        { intros k0 Hk0.
          rewrite dict_put_keys, (filter_neq_absent k _ Hfresh) in Hk0.
          apply in_app_or in Hk0 as [H|[<-|[]]]; auto. }
        rewrite (IH (pre ++ [c]) _ d' Hnd' (Hnext _ Hput) Hrun).
        rewrite dict_put_keys, (filter_neq_absent k _ Hfresh), <- app_assoc.
        reflexivity.
    + simpl in Hrun. apply (IH (pre ++ [c]) d d' Hnd'); [|exact Hrun].
      apply Hnext. auto.
Qed.

(** X18: the flattening of a row never has a key twice and has at most
    one key per column of the table, so no more keys than [len(row)];
    every key is the name of a column that does not start with ["_"], or
    the alias ["_"], which only [named_only=False] can put. *)
Theorem asdict_keys_bound (named_only : bool) (lr : lazyrow) (d : Row) :
  LazyRow_asdict py_str named_only lr = Ok d ->
  NoDup (dict_keys d)
  /\ List.length (dict_keys d) <= LazyRow_len lr
  /\ (forall k, In k (dict_keys d) ->
        (k = CURRENT_COLNAME /\ named_only = false)
        \/ (startswith k "_" = false /\ In k (colnames (_table lr))))
  /\ (named_only = false -> LazyRow_keys py_str lr = Ok (dict_keys d)).
Proof.
  intros H. pose proof H as H'. rewrite LazyRow_asdict_eq in H.
  destruct (asdict_loop_keys _ _ _ _ _ _ _ H (NoDup_nil _)) as (H1 & H2 & H3).
  split; [exact H1|]. split; [exact H2|]. split.
  - intros k Hk. destruct (H3 k Hk) as [[]|[E|E]]; auto.
  - intros ->. unfold LazyRow_keys. now rewrite H'.
Qed.

(** X19: in a table with distinct column names no key is ever written
    twice: the keys of the flattening are, in column order, the keys of
    the retained columns whose value on the row is present. *)
Theorem asdict_keys_in_column_order (named_only : bool) (t : table) (r d : Row) :
  NoDup (colnames t) ->
  LazyRow_asdict py_str named_only (mkLazyRow t r) = Ok d ->
  dict_keys d = put_keys named_only r (columns t).
Proof.
  intros Hnd H. rewrite LazyRow_asdict_eq in H. simpl in H.
  apply (asdict_loop_order named_only r (columns t) [] [] d Hnd); [|exact H].
  intros k [].
Qed.

(** X26: in a table with distinct column names, every entry of the
    flattening of a row other than the alias comes from the row's own
    field: lookup of the key on the row returns a present value, and the
    entry is that value converted. *)
Theorem flatten_agrees_with_lookup (named_only : bool) (t : table) (r d : Row)
        (k : string) (a : value) :
  NoDup (colnames t) ->
  LazyRow_asdict py_str named_only (mkLazyRow t r) = Ok d ->
  dict_lookup d k = Some a -> k <> CURRENT_COLNAME ->
  exists v, LazyRow_getitem k (mkLazyRow t r) = Ok v
            /\ is_None v = false
            /\ asdict_value py_str (item_asdict py_str) v = Ok a.
Proof.
  intros Hnd Hrun Hd Hne.
  assert (In k (dict_keys d)) as Hin.
  { destruct (in_dec string_dec k (dict_keys d)) as [H|H]; [exact H|].
    apply dict_lookup_None in H. congruence. }
  rewrite LazyRow_asdict_eq in Hrun. simpl in Hrun.
  rewrite (asdict_loop_order named_only r (columns t) [] [] d Hnd
             (fun k H => match H with end) Hrun) in Hin.
  simpl in Hin.
  destruct (put_keys_In _ _ _ _ Hin) as (cs1 & c & cs2 & v & Hcs & Hk & Hv & Hn).
  pose proof (first_column_by_name cs1 cs2 c t Hnd Hcs) as Hfirst.
  unfold colnames in Hnd. rewrite Hcs in Hnd, Hrun.
  assert (k = name c) as ->.
  { apply asdict_key_hidden_name in Hk as [[_ ->]|(_ & -> & _)];
      [reflexivity|contradiction]. }
  exists v. split; [|split; [exact Hn|]].
  - rewrite (LazyRow_getitem_hit (name c) (mkLazyRow t r) c Hne Hfirst). exact Hv.
  - destruct (asdict_loop_last_put py_str (item_asdict py_str) r named_only
                cs1 cs2 c (name c) v [] d Hk Hv Hn) as (v' & Hv' & Hl).
    + intros cs2a c' cs2b v0 Heq Hk' _. exfalso.
      exact (no_later_put named_only cs1 cs2 c (name c) Hnd Hk cs2a c' cs2b Heq Hk').
    + exact Hrun.
    + rewrite Hd in Hl. injection Hl as ->. exact Hv'.
Qed.

(** X20: what a present cell becomes in the flattening of a row of a
    table with distinct column names: a cell holding a table becomes what
    [Table._asdict] returns for that table (its scalar, or the list of its
    rows' flattenings); a cell that is neither a table nor an int, float or
    str becomes its [str]. *)
Theorem asdict_converts_cells (named_only : bool) (t : table) (r : Row)
        (cs1 cs2 : list column) (c : column) (k : string) (d : Row) :
  NoDup (colnames t) ->
  columns t = cs1 ++ c :: cs2 ->
  asdict_key named_only c (is_nil cs2) = Some k ->
  LazyRow_asdict py_str named_only (mkLazyRow t r) = Ok d ->
  (forall tv, get_value c (VDict r) = Ok (VTable tv) ->
     exists a, Table_asdict py_str tv = Ok a /\ dict_lookup d k = Some a)
  /\ (forall v, get_value c (VDict r) = Ok v ->
        is_None v = false -> is_Table v = false -> is_primitive v = false ->
        exists s, py_str v = Ok s /\ dict_lookup d k = Some (VStr s)).
Proof.
  intros Hnd Hcs Hk Hrun. rewrite LazyRow_asdict_eq in Hrun. simpl in Hrun.
  unfold colnames in Hnd. rewrite Hcs in Hnd, Hrun.
  assert (forall cs2a c' cs2b v', cs2 = cs2a ++ c' :: cs2b ->
            asdict_key named_only c' (is_nil cs2b) = Some k ->
            get_value c' (VDict r) = Ok v' -> is_None v' = true) as Hlater.
  { intros cs2a c' cs2b v' Heq Hk' _. exfalso.
    assert (cs1 ++ c :: cs2 = (cs1 ++ c :: cs2a) ++ c' :: cs2b) as Heq'
        by (rewrite Heq, <- app_assoc; reflexivity).
    destruct (key_position_unique named_only _ _ _ _ _ _ k Hnd Heq' Hk Hk')
      as (E & _ & _).
    apply (f_equal (@List.length _)) in E. rewrite length_app in E. simpl in E. lia. }
  split.
  - intros tv Hv.
    destruct (asdict_loop_last_put _ _ _ _ _ _ _ _ _ _ _ Hk Hv eq_refl Hlater Hrun)
      as (a & Ha & Hd).
    exists a. split; [now apply asdict_value_table|exact Hd].
  - intros v Hv Hn Ht Hp.
    destruct (asdict_loop_last_put _ _ _ _ _ _ _ _ _ _ _ Hk Hv Hn Hlater Hrun)
      as (a & Ha & Hd).
    assert (asdict_value py_str (item_asdict py_str) v
            = (s <- py_str v ;; Ok (VStr s))) as E
        by (destruct v; try reflexivity; discriminate).
    rewrite E in Ha. destruct (py_str v) as [s|e]; simpl in Ha; [|discriminate].
    injection Ha as <-. eauto.
Qed.

(** X21: when several columns put the same key (columns sharing a name),
    the last of them whose value is present decides: the flattening has
    that column's converted value under the key. *)
Theorem asdict_last_write_wins (named_only : bool) (t : table) (r : Row)
        (cs1 cs2 : list column) (c : column) (k : string) (v : value) (d : Row) :
  columns t = cs1 ++ c :: cs2 ->
  asdict_key named_only c (is_nil cs2) = Some k ->
  get_value c (VDict r) = Ok v -> is_None v = false ->
  (forall cs2a c' cs2b v', cs2 = cs2a ++ c' :: cs2b ->
     asdict_key named_only c' (is_nil cs2b) = Some k ->
     get_value c' (VDict r) = Ok v' -> is_None v' = true) ->
  LazyRow_asdict py_str named_only (mkLazyRow t r) = Ok d ->
  exists v', asdict_value py_str (item_asdict py_str) v = Ok v'
             /\ dict_lookup d k = Some v'.
Proof.
  intros Hcs Hk Hv Hn Hlater Hrun. rewrite LazyRow_asdict_eq in Hrun.
  simpl in Hrun. rewrite Hcs in Hrun.
  eapply asdict_loop_last_put; eauto.
Qed.

(** X22: [Table._asdict] of a table without scalar, when it returns, is a
    list with one mapping per row, the [i]-th being the flattening (with
    [named_only=False]) of the [i]-th row. *)
Theorem Table_asdict_rows (t : table) (a : value) :
  is_None (scalar t) = true ->
  Table_asdict py_str t = Ok a ->
  exists l, a = VList l
            /\ List.length l = Table_len t
            /\ forall i r, nth_error (rows t) i = Some r ->
                 exists d, nth_error l i = Some (VDict d)
                           /\ LazyRow_asdict py_str false (mkLazyRow t r) = Ok d.
Proof.
  intros Hs. rewrite Table_asdict_eq, Hs. simpl.
  destruct (mapM (item_asdict py_str) (Table_iter t)) as [l|e] eqn:E; simpl;
    [|discriminate].
  intros [= <-]. exists l. split; [reflexivity|].
  apply mapM_length in E as [Hl Hn].
  unfold Table_iter in Hl, Hn. rewrite Hs in Hl, Hn. simpl in Hl, Hn.
  split; [now rewrite Hl, length_map|].
  intros i r Hr.
  destruct (Hn i (VLazyRow (mkLazyRow t r))) as (b & Hb & Hf).
  - now rewrite nth_error_map, Hr.
  - unfold item_asdict, item_asdict_of in Hf.
    destruct (LazyRow_asdict py_str false (mkLazyRow t r)) as [d|e] eqn:Ed;
      simpl in Hf; [|discriminate].
    injection Hf as <-. exists d. split; [exact Hb|exact Ed].
Qed.
End FlattenMore.

Lemma asdict_keys_bound_witness :
  NoDup (dict_keys ex_hidden_out) /\ List.length (dict_keys ex_hidden_out) <= 6.
Proof.
  destruct (asdict_keys_bound ex_str false ex_hidden_lr ex_hidden_out eq_refl)
    as (H1 & H2 & _ & _).
  split; [exact H1|exact H2].
Defined.

Lemma asdict_keys_in_column_order_witness :
  dict_keys ex_hidden_out = ["a"; "b"; "_"].
Proof.
  exact (asdict_keys_in_column_order ex_str false ex_hidden ex_hidden_row ex_hidden_out
           ex_hidden_NoDup eq_refl).
Defined.

Lemma ex_cells_NoDup : NoDup (colnames ex_cells).
Proof. repeat constructor; simpl; intuition discriminate. Qed.

Lemma asdict_converts_cells_witness :
  exists d, LazyRow_asdict ex_str false (mkLazyRow ex_cells ex_cells_row) = Ok d
            /\ dict_lookup d "s" = Some (VInt 5)
            /\ dict_lookup d "o" = Some (VStr "<object>").
Proof.
  assert (exists d, LazyRow_asdict ex_str false (mkLazyRow ex_cells ex_cells_row) = Ok d)
    as [d Hd] by (eexists; reflexivity).
  exists d. split; [exact Hd|]. split.
  - destruct (asdict_converts_cells ex_str false ex_cells ex_cells_row
                [Column "t" (KStr "t")] [Column "o" (KStr "o")]
                (Column "s" (KStr "s")) "s" d ex_cells_NoDup eq_refl eq_refl Hd)
      as [H _].
    destruct (H (mkTable [] [] None (VInt 5)) eq_refl) as (a & Ha & Hl).
    injection Ha as <-. exact Hl.
  - destruct (asdict_converts_cells ex_str false ex_cells ex_cells_row
                [Column "t" (KStr "t"); Column "s" (KStr "s")] []
                (Column "o" (KStr "o")) "o" d ex_cells_NoDup eq_refl eq_refl Hd)
      as [_ H].
    destruct (H (VList []) eq_refl eq_refl eq_refl eq_refl) as (s & Hs & Hl).
    injection Hs as <-. exact Hl.
Defined.

Lemma asdict_last_write_wins_witness :
  exists d, LazyRow_asdict ex_str false (mkLazyRow ex_twice [("x", VInt 1); ("y", VInt 2)])
            = Ok d
            /\ dict_lookup d "a" = Some (VInt 2).
Proof.
  assert (exists d, LazyRow_asdict ex_str false
                      (mkLazyRow ex_twice [("x", VInt 1); ("y", VInt 2)]) = Ok d)
    as [d Hd] by (eexists; reflexivity).
  exists d. split; [exact Hd|].
  destruct (asdict_last_write_wins ex_str false ex_twice [("x", VInt 1); ("y", VInt 2)]
              [Column "a" (KStr "x")] [] (Column "a" (KStr "y")) "a" (VInt 2) d
              eq_refl eq_refl eq_refl eq_refl) as (v' & Hv & Hl); [|exact Hd|].
  - intros [|? ?] c' cs2b v' E; discriminate.
  - injection Hv as <-. exact Hl.
Defined.

Lemma Table_asdict_rows_witness :
  exists l, Table_asdict ex_str ex_flat = Ok (VList l) /\ List.length l = 2.
Proof.
  assert (exists a, Table_asdict ex_str ex_flat = Ok a) as [a Ha]
      by (eexists; reflexivity).
  destruct (Table_asdict_rows ex_str ex_flat a eq_refl Ha) as (l & -> & Hl & _).
  exists l. split; [exact Ha|exact Hl].
Defined.

Lemma flatten_agrees_with_lookup_witness :
  exists v, LazyRow_getitem "b" ex_hidden_lr = Ok v /\ is_None v = false
            /\ asdict_value ex_str (item_asdict ex_str) v = Ok (VStr "").
Proof.
  apply (flatten_agrees_with_lookup ex_str false ex_hidden ex_hidden_row ex_hidden_out
           "b" (VStr "") ex_hidden_NoDup eq_refl eq_refl).
  discriminate.
Defined.

(** ** Deep column names *)

Section DeepNamesFacts.
Variable key_str : list string -> string.

Lemma deep_loop_ext (deep1 deep2 : table -> result string) (t : table) :
  (forall t', tsize t' < tsize t -> deep1 t' = deep2 t') ->
  forall cs, deep_loop key_str deep1 t cs = deep_loop key_str deep2 t cs.
Proof.
  intros Hd. induction cs as [|c cs IH]; simpl; [reflexivity|].
  rewrite IH. destruct (negb (hidden c) || is_nil cs); [|reflexivity].
  assert (deepname_with key_str deep1 c t = deepname_with key_str deep2 c t) as ->;
    [|reflexivity].
  unfold deepname_with. destruct (rows t) as [|row0 rs] eqn:Er; [reflexivity|].
  destruct (get_value c (VDict row0)) as [v|e] eqn:Ev; simpl; [|reflexivity].
  destruct v; try reflexivity.
  apply get_value_small in Ev. rewrite vsize_VDict in Ev. simpl in Ev.
  assert (In row0 (rows t)) as Hin by (rewrite Er; now left).
  apply tsize_row in Hin. rewrite Hd by lia. reflexivity.
Qed.

Lemma deepcolnames_fuel_enough (n : nat) : forall m t,
  tsize t <= n -> tsize t <= m ->
  deepcolnames_fuel key_str n t = deepcolnames_fuel key_str m t.
Proof.
  induction n as [|n IH]; intros m t Hn Hm.
  - pose proof (tsize_pos t). lia.
  - destruct m as [|m]; [pose proof (tsize_pos t); lia|]. simpl.
    rewrite (deep_loop_ext _ (deepcolnames_fuel key_str m)); [reflexivity|].
    intros t' Ht'. apply IH; lia.
Qed.

(** [Table.deepcolnames], as the source writes it *)
Lemma deepcolnames_eq (t : table) :
  deepcolnames key_str t =
    (names <- deep_loop key_str (deepcolnames key_str) t (columns t) ;;
     Ok (join_or_no_cols names)).
Proof.
  unfold deepcolnames at 1. pose proof (tsize_pos t) as Hp.
  destruct (tsize t) as [|n] eqn:En; [lia|]. simpl.
  rewrite (deep_loop_ext _ (deepcolnames key_str)); [reflexivity|].
  intros t' Ht'. unfold deepcolnames. apply deepcolnames_fuel_enough; lia.
Qed.

Lemma deep_loop_no_rows (deep : table -> result string) (t : table) :
  rows t = [] ->
  forall cs, deep_loop key_str deep t cs
             = Ok (map (name_or_key key_str) (shown_columns cs)).
Proof.
  intros Hr. induction cs as [|c cs IH]; simpl; [reflexivity|].
  rewrite IH. destruct (negb (hidden c) || is_nil cs); [|reflexivity].
  unfold deepname_with. rewrite Hr. reflexivity.
Qed.

Lemma shown_columns_nil (cs : list column) :
  is_nil (shown_columns cs) = is_nil cs.
Proof.
  induction cs as [|c cs IH]; simpl; [reflexivity|].
  destruct (negb (hidden c)); simpl; [reflexivity|].
  destruct cs; [reflexivity|]. simpl in *. exact IH.
Qed.

Lemma deep_loop_shown (deep : table -> result string) (t u : table) :
  rows u = rows t ->
  forall cs, deep_loop key_str deep u (shown_columns cs)
             = deep_loop key_str deep t cs.
Proof.
  intros Hr. induction cs as [|c cs IH]; simpl; [reflexivity|].
  destruct (negb (hidden c) || is_nil cs) eqn:E; [|exact IH].
  simpl. rewrite shown_columns_nil, E, IH.
  unfold deepname_with. rewrite Hr. reflexivity.
Qed.

(** X23: [deepcolnames] of a table without rows never raises: it is the
    comma-joined names (or keys, for an empty name) of the columns that
    are not hidden plus the current one, and ["no cols"] when that string
    is empty, as it is for a table without columns. *)
Theorem deepcolnames_no_rows (t : table) :
  (rows t = [] ->
   deepcolnames key_str t
   = Ok (join_or_no_cols (map (name_or_key key_str) (shown_columns (columns t)))))
  /\ (columns t = [] -> deepcolnames key_str t = Ok "no cols").
Proof.
  split; intros H; rewrite deepcolnames_eq.
  - now rewrite deep_loop_no_rows.
  - rewrite H. reflexivity.
Qed.

(** X24: a hidden column that is not the current one never shows in
    [deepcolnames]: the result is that of the table without those
    columns. *)
Theorem deepcolnames_skips_hidden (t : table) :
  deepcolnames key_str t
  = deepcolnames key_str
      (mkTable (rows t) (shown_columns (columns t)) (parent t) (scalar t)).
Proof.
  rewrite !deepcolnames_eq. simpl columns.
  now rewrite (deep_loop_shown _ t).
Qed.
End DeepNamesFacts.

Lemma deepcolnames_no_rows_witness :
  deepcolnames ex_key_str (mkTable [] (columns ex_hidden) None VNone)
  = Ok "a,b,c,d,e,_tmp"
  /\ deepcolnames ex_key_str (mkTable [[("a", VInt 1)]] [] None VNone) = Ok "no cols".
Proof.
  split.
  - apply (proj1 (deepcolnames_no_rows ex_key_str
                    (mkTable [] (columns ex_hidden) None VNone))).
    reflexivity.
  - apply (proj2 (deepcolnames_no_rows ex_key_str
                    (mkTable [[("a", VInt 1)]] [] None VNone))).
    reflexivity.
Defined.

Lemma deepcolnames_skips_hidden_witness :
  deepcolnames ex_key_str
    (mkTable [[("_h", VInt 1); ("x", VTable ex_inner2)]]
             [Column "_h" (KStr "_h"); Column "x" (KStr "x")] None VNone)
  = Ok "x:y".
Proof.
  rewrite (deepcolnames_skips_hidden ex_key_str). reflexivity.
Defined.
